(** * Noughts and Crosses: a shallow embedding of [noughts_and_crosses.cpp]

    The C++ functions of the game are transcribed as Rocq functions: first
    the turn controller and the win detector, which only touch the board,
    then the functions that use the rendering context.

    - [int] values are integers of [Z].  Every integer expression of the file
      ([index.x + index.y * size], [position + 1], [board_size - position - 1],
      the loop counters) stays between [-1] and [size * size], and
      [size * size] is the length of a [std::array], so no [int] operation
      leaves the range of the type.
    - [float] values are IEEE binary32 numbers: [spec_float] with the
      operations of [SpecFloat] at precision 24.
    - [Board<size>::operator[]] asserts that its index is in range.  Functions
      that read or write the board return in [option]; [None] is the failed
      assertion.
    - The rendering context is the record [Context]: its settable fields, the
      pointer position, the shapes drawn so far and whether the loop is still
      running.  Standard output is the text written so far.
    - [p6::map] belongs to the p6 library, which is not part of the
      repository: it is a parameter of the development. *)

From Stdlib Require Import ZArith Lia String Ascii.
From Stdlib.Floats Require Import SpecFloat.
From stdpp Require Import base option list.

Local Open Scope Z_scope.

(** ** binary32 arithmetic *)

Module Float32.

Definition prec : Z := 24.
Definition emax : Z := 128.

Definition float : Type := spec_float.

Definition add : float -> float -> float := SFadd prec emax.
Definition mul : float -> float -> float := SFmul prec emax.
Definition div : float -> float -> float := SFdiv prec emax.
Definition opp : float -> float := SFopp.

(** [static_cast<float>(n)] *)
Definition of_int (n : Z) : float := binary_normalize prec emax n 0 false.

(** The literal [num/den] written in decimal ([0.4f] is [literal 4 10]):
    numerator and denominator are exact in binary32 and the division
    rounds to nearest, as the conversion of the literal does. *)
Definition literal (num den : Z) : float := div (of_int num) (of_int den).

Definition INT_MIN : Z := - 2 ^ 31.
Definition INT_MAX : Z := 2 ^ 31 - 1.

(** [static_cast<int>(std::floor(f))].  The floor of a finite [f] is
    exact.  Where the floor does not fit an [int], and for infinities and
    NaN, the C++ conversion is undefined; the value here is the one the
    x86-64 conversion instruction produces. *)
Definition floor_to_int (f : float) : Z :=
  match f with
  | S754_zero _ => 0
  | S754_finite s m e =>
      let v := Z.shiftl (cond_Zopp s (Z.pos m)) e in
      if (INT_MIN <=? v) && (v <=? INT_MAX) then v else INT_MIN
  | S754_infinity _ | S754_nan => INT_MIN
  end.

End Float32.

Abbreviation float := Float32.float.

(** [glm::vec2] *)
Record vec2 : Type := Vec2 { vx : float; vy : float }.

(** [glm::vec2{s}] *)
Definition vec2_splat (s : float) : vec2 := Vec2 s s.

(** [v + s] on a [glm::vec2] and a scalar *)
Definition vec2_add_scalar (v : vec2) (s : float) : vec2 :=
  Vec2 (Float32.add (vx v) s) (Float32.add (vy v) s).

(** [v * s] on a [glm::vec2] and a scalar *)
Definition vec2_mul_scalar (v : vec2) (s : float) : vec2 :=
  Vec2 (Float32.mul (vx v) s) (Float32.mul (vy v) s).

(** ** Data of the game *)

Record CellIndex : Type := mkCellIndex { x : Z; y : Z }.

Inductive Player : Type :=
| Noughts
| Crosses.

#[global] Instance Player_eq_dec : EqDecision Player.
Proof. solve_decision. Defined.

#[global] Instance CellIndex_eq_dec : EqDecision CellIndex.
Proof. solve_decision. Defined.

(** The [_cells] array of a [Board<size>], in storage order. *)
Abbreviation Board := (list (option Player)).

(** A [Board<size>] holds exactly [size * size] cells. *)
Definition board_wf (size : Z) (board : Board) : Prop :=
  length board = Z.to_nat (size * size).

(** [Board<size>{}]: every cell is [std::nullopt]. *)
Definition empty_board (size : Z) : Board :=
  replicate (Z.to_nat (size * size)) None.

Module BoardOps.

(** The condition of the [assert] in [operator[]]. *)
Definition in_range (size : Z) (index : CellIndex) : bool :=
  (0 <=? x index) && (x index <? size) &&
  (0 <=? y index) && (y index <? size).

(** [index.x + index.y * size] *)
Definition offset (size : Z) (index : CellIndex) : nat :=
  Z.to_nat (x index + y index * size).

(** [board[index]], read. *)
Definition at_ (size : Z) (board : Board) (index : CellIndex)
  : option (option Player) :=
  if in_range size index then board !! offset size index else None.

(** [board[index] = cell], written. *)
Definition assign (size : Z) (board : Board) (index : CellIndex)
    (cell : option Player) : option Board :=
  if in_range size index then
    _ ← board !! offset size index;
    Some (<[offset size index := cell]> board)
  else None.

End BoardOps.

(** ** Shapes and the rendering context *)

Inductive Shape : Type :=
| Background (color : list float)
| Square (bottom_left_corner : vec2) (radius : float)
| Circle (center : vec2) (radius : float)
| Rectangle (center : vec2) (radii : vec2) (rotation : float).

Record Context : Type := mkContext {
  mouse : vec2;
  stroke : list float;
  fill : list float;
  stroke_weight : float;
  drawn : list Shape;
  running : bool
}.

Definition set_stroke (c : list float) (ctx : Context) : Context :=
  mkContext (mouse ctx) c (fill ctx) (stroke_weight ctx) (drawn ctx) (running ctx).
Definition set_fill (c : list float) (ctx : Context) : Context :=
  mkContext (mouse ctx) (stroke ctx) c (stroke_weight ctx) (drawn ctx) (running ctx).
Definition set_stroke_weight (w : float) (ctx : Context) : Context :=
  mkContext (mouse ctx) (stroke ctx) (fill ctx) w (drawn ctx) (running ctx).
Definition draw (s : Shape) (ctx : Context) : Context :=
  mkContext (mouse ctx) (stroke ctx) (fill ctx) (stroke_weight ctx)
            (drawn ctx ++ [s]) (running ctx).
Definition set_mouse (p : vec2) (ctx : Context) : Context :=
  mkContext p (stroke ctx) (fill ctx) (stroke_weight ctx) (drawn ctx) (running ctx).
(** [ctx.stop()] *)
Definition stop (ctx : Context) : Context :=
  mkContext (mouse ctx) (stroke ctx) (fill ctx) (stroke_weight ctx) (drawn ctx) false.

(** ** Game logic that does not touch the rendering context *)

Definition change_player (player : Player) : Player :=
  match player with
  | Noughts => Crosses
  | Crosses => Noughts
  end.

(** [try_to_play]: the board and the player are passed by reference; the
    result is their value when the call returns. *)
Definition try_to_play (board_size : Z) (cell_index : option CellIndex)
    (board : Board) (current_player : Player) : option (Board * Player) :=
  match cell_index with
  | Some index =>
      cell ← BoardOps.at_ board_size board index;
      let cell_is_empty := negb (bool_decide (is_Some cell)) in
      if cell_is_empty then
        board' ← BoardOps.assign board_size board index (Some current_player);
        Some (board', change_player current_player)
      else Some (board, current_player)
  | None => Some (board, current_player)
  end.

(** [std::all_of] over the cells in storage order. *)
Definition board_is_full (board : Board) : bool :=
  forallb (fun cell => bool_decide (is_Some cell)) board.

(** The loop of the [are_all_equal] lambda, [iterations] rounds from
    [position] on. *)
Fixpoint are_all_equal_loop (board_size : Z) (board : Board)
    (index_generator : Z -> CellIndex) (iterations : nat) (position : Z)
    : option bool :=
  match iterations with
  | O => Some true
  | S n =>
      a ← BoardOps.at_ board_size board (index_generator position);
      b ← BoardOps.at_ board_size board (index_generator (position + 1));
      if decide (a <> b) then Some false
      else are_all_equal_loop board_size board index_generator n (position + 1)
  end.

Definition check_for_winner_on_line (board_size : Z) (board : Board)
    (index_generator : Z -> CellIndex) : option (option Player) :=
  are_all_equal ←
    are_all_equal_loop board_size board index_generator
                       (Z.to_nat (board_size - 1)) 0;
  if (are_all_equal : bool) then
    first ← BoardOps.at_ board_size board (index_generator 0);
    match first with
    | Some player => Some (Some player)
    | None => Some None
    end
  else Some None.

(** The index generators of the four kinds of line. *)
Definition column (x : Z) : Z -> CellIndex :=
  fun position => mkCellIndex x position.
Definition row (y : Z) : Z -> CellIndex :=
  fun position => mkCellIndex position y.
Definition diagonal : Z -> CellIndex :=
  fun position => mkCellIndex position position.
Definition anti_diagonal (board_size : Z) : Z -> CellIndex :=
  fun position => mkCellIndex position (board_size - position - 1).

(** [for (int i = ...; i < board_size && !winner.has_value(); ++i)
       winner = check_for_winner_on_line(board, line i);]
    with [iterations] values of [i] left. *)
Fixpoint scan_lines (board_size : Z) (board : Board)
    (line : Z -> Z -> CellIndex) (iterations : nat) (i : Z)
    (winner : option Player) : option (option Player) :=
  match iterations with
  | O => Some winner
  | S n =>
      match winner with
      | Some _ => Some winner
      | None =>
          winner' ← check_for_winner_on_line board_size board (line i);
          scan_lines board_size board line n (i + 1) winner'
      end
  end.

Definition check_for_winner (board_size : Z) (board : Board)
    : option (option Player) :=
  let winner := None in
  winner ← scan_lines board_size board column (Z.to_nat board_size) 0 winner;
  winner ← scan_lines board_size board row (Z.to_nat board_size) 0 winner;
  winner ← match winner with
           | Some _ => Some winner
           | None => check_for_winner_on_line board_size board diagonal
           end;
  winner ← match winner with
           | Some _ => Some winner
           | None => check_for_winner_on_line board_size board
                                              (anti_diagonal board_size)
           end;
  Some winner.

Definition newline : string := String (ascii_of_nat 10) EmptyString.

Definition Noughts_have_won : string := "Noughts have won!" ++ newline.
Definition Crosses_have_won : string := "Crosses have won!" ++ newline.
Definition This_is_a_draw : string := "This is a draw!" ++ newline.

(** [game_is_finished]: the returned flag and the text sent to [std::cout]
    by the call. *)
Definition game_is_finished (board_size : Z) (board : Board)
    : option (bool * string) :=
  winner ← check_for_winner board_size board;
  match winner with
  | Some Noughts => Some (true, Noughts_have_won)
  | Some Crosses => Some (true, Crosses_have_won)
  | None =>
      if board_is_full board then Some (true, This_is_a_draw)
      else Some (false, EmptyString)
  end.

(** ** Coordinates, drawing and the session *)

Section Rendering.

(** [p6::map(x, from_min, from_max, to_min, to_max)] on [glm::vec2]. *)
Variable p6_map : vec2 -> vec2 -> vec2 -> vec2 -> vec2 -> vec2.

Definition cell_radius (board_size : Z) : float :=
  Float32.div (Float32.of_int 1) (Float32.of_int board_size).

Definition cell_bottom_left_corner (index : CellIndex) (board_size : Z)
  : vec2 :=
  let idx := Vec2 (Float32.of_int (x index)) (Float32.of_int (y index)) in
  p6_map idx
         (vec2_splat (Float32.of_int 0))
         (vec2_splat (Float32.of_int board_size))
         (vec2_splat (Float32.of_int (-1)))
         (vec2_splat (Float32.of_int 1)).

Definition cell_center (index : CellIndex) (board_size : Z) : vec2 :=
  vec2_add_scalar (cell_bottom_left_corner index board_size)
                  (cell_radius board_size).

Definition draw_cell (index : CellIndex) (board_size : Z) (ctx : Context)
  : Context :=
  draw (Square (cell_bottom_left_corner index board_size)
               (cell_radius board_size)) ctx.

Definition draw_nought (index : CellIndex) (board_size : Z) (ctx : Context)
  : Context :=
  let ctx := set_stroke (Float32.of_int <$> [0; 0; 0]) ctx in
  let ctx := set_fill (Float32.of_int <$> [0; 0; 0; 0]) ctx in
  let ctx := set_stroke_weight
               (Float32.mul (Float32.literal 4 10) (cell_radius board_size))
               ctx in
  draw (Circle (cell_center index board_size)
               (Float32.mul (Float32.literal 9 10) (cell_radius board_size)))
       ctx.

Definition draw_cross (index : CellIndex) (board_size : Z) (ctx : Context)
  : Context :=
  let ctx := set_stroke (Float32.of_int <$> [0; 0; 0]) ctx in
  let ctx := set_fill (Float32.of_int <$> [0; 0; 0; 0]) ctx in
  let ctx := set_stroke_weight
               (Float32.mul (Float32.literal 4 10) (cell_radius board_size))
               ctx in
  let center := cell_center index board_size in
  let radii := vec2_mul_scalar
                 (Vec2 (Float32.of_int 1) (Float32.literal 2 10))
                 (cell_radius board_size) in
  (* [0.125_turn], as a number of turns *)
  let rotation := Float32.literal 125 1000 in
  let ctx := draw (Rectangle center radii rotation) ctx in
  draw (Rectangle center radii (Float32.opp rotation)) ctx.

(** [for (int i = 0; i < size; ++i) body(i)] on a state [S]. *)
Definition for_each {S : Type} (size : Z) (body : Z -> S -> S) (s : S) : S :=
  foldl (fun s i => body i s) s (seqZ 0 size).

Definition draw_board (size : Z) (ctx : Context) : Context :=
  for_each size (fun x =>
    for_each size (fun y => draw_cell (mkCellIndex x y) size)) ctx.

Definition cell_hovered_by (position : vec2) (board_size : Z)
  : option CellIndex :=
  let pos := p6_map position
                    (vec2_splat (Float32.of_int (-1)))
                    (vec2_splat (Float32.of_int 1))
                    (vec2_splat (Float32.of_int 0))
                    (vec2_splat (Float32.of_int board_size)) in
  let index := mkCellIndex (Float32.floor_to_int (vx pos))
                           (Float32.floor_to_int (vy pos)) in
  if (0 <=? x index) && (x index <? board_size) &&
     (0 <=? y index) && (y index <? board_size)
  then Some index
  else None.

Definition draw_player (player : Player) (index : CellIndex)
    (board_size : Z) (ctx : Context) : Context :=
  match player with
  | Noughts => draw_nought index board_size ctx
  | Crosses => draw_cross index board_size ctx
  end.

Definition draw_noughts_and_crosses (size : Z) (board : Board)
    (ctx : Context) : option Context :=
  for_each size (fun x =>
    for_each size (fun y octx =>
      ctx ← octx;
      cell ← BoardOps.at_ size board (mkCellIndex x y);
      match cell with
      | Some player => Some (draw_player player (mkCellIndex x y) size ctx)
      | None => Some ctx
      end)) (Some ctx).

Definition try_draw_player_on_hovered_cell (board_size : Z)
    (player : Player) (board : Board) (ctx : Context) : option Context :=
  let hovered_cell := cell_hovered_by (mouse ctx) board_size in
  match hovered_cell with
  | Some index =>
      cell ← BoardOps.at_ board_size board index;
      if negb (bool_decide (is_Some cell))
      then Some (draw_player player index board_size ctx)
      else Some ctx
  | None => Some ctx
  end.

(** The variables captured by the two callbacks of
    [play_noughts_and_crosses], and the text on standard output. *)
Record Session : Type := mkSession {
  board : Board;
  current_player : Player;
  ctx : Context;
  cout : string
}.

(** [ctx.mouse_pressed] *)
Definition mouse_pressed (board_size : Z) (position : vec2) (s : Session)
  : option Session :=
  '(board', player') ←
    try_to_play board_size (cell_hovered_by position board_size)
                (board s) (current_player s);
  Some (mkSession board' player' (ctx s) (cout s)).

(** [ctx.update] *)
Definition update (board_size : Z) (s : Session) : option Session :=
  let c := draw (Background [Float32.literal 3 10; Float32.literal 25 100;
                             Float32.literal 35 100]) (ctx s) in
  let c := set_stroke_weight (Float32.literal 1 100) c in
  let c := set_stroke (Float32.of_int <$> [1; 1; 1; 1]) c in
  let c := set_fill (Float32.of_int <$> [0; 0; 0; 0]) c in
  let c := draw_board board_size c in
  c ← draw_noughts_and_crosses board_size (board s) c;
  c ← try_draw_player_on_hovered_cell board_size (current_player s)
                                      (board s) c;
  '(finished, text) ← game_is_finished board_size (board s);
  let c := if (finished : bool) then stop c else c in
  Some (mkSession (board s) (current_player s) c (cout s ++ text)).

(** What the window delivers while the loop of [ctx.start()] runs: a
    pointer press at a position, or a frame with the pointer somewhere. *)
Inductive Event : Type :=
| Press (position : vec2)
| Frame (pointer : vec2).

Definition handle (board_size : Z) (e : Event) (s : Session)
  : option Session :=
  match e with
  | Press position => mouse_pressed board_size position s
  | Frame pointer =>
      update board_size
             (mkSession (board s) (current_player s)
                        (set_mouse pointer (ctx s)) (cout s))
  end.

(** [ctx.start()]: events are handled until [ctx.stop()] has been called. *)
Fixpoint start (board_size : Z) (events : list Event) (s : Session)
  : option Session :=
  match events with
  | [] => Some s
  | e :: events' =>
      if running (ctx s) then
        s' ← handle board_size e s;
        start board_size events' s'
      else Some s
  end.

(** [play_noughts_and_crosses], from the context the window opens with. *)
Definition board_size : Z := 3.

Definition play_noughts_and_crosses (window : Context)
    (events : list Event) : option Session :=
  start board_size events
        (mkSession (empty_board board_size) Crosses window EmptyString).

End Rendering.

(** ** Specification vocabulary *)

(** The line generated by [line] is filled with [player]. *)
Definition line_won_by (board_size : Z) (board : Board)
    (line : Z -> CellIndex) (player : Player) : Prop :=
  forall k, 0 <= k < board_size ->
    BoardOps.at_ board_size board (line k) = Some (Some player).

(** The [2 * board_size + 2] lines in the order [check_for_winner] visits
    them. *)
Definition lines (board_size : Z) : list (Z -> CellIndex) :=
  (column <$> seqZ 0 board_size) ++ (row <$> seqZ 0 board_size) ++
  [diagonal; anti_diagonal board_size].

(** The result of [check_for_winner_on_line] on the first line of [ls]
    that has a winner. *)
Fixpoint first_winner (board_size : Z) (board : Board)
    (ls : list (Z -> CellIndex)) : option (option Player) :=
  match ls with
  | [] => Some None
  | line :: ls' =>
      winner ← check_for_winner_on_line board_size board line;
      match winner with
      | Some player => Some (Some player)
      | None => first_winner board_size board ls'
      end
  end.

(** The victory line [game_is_finished] prints for a player. *)
Definition victory_line (player : Player) : string :=
  match player with
  | Noughts => Noughts_have_won
  | Crosses => Crosses_have_won
  end.

(** A sequence of [try_to_play] calls, one per element of [calls]. *)
Fixpoint play_all (board_size : Z) (calls : list (option CellIndex))
    (board : Board) (player : Player) : option (Board * Player) :=
  match calls with
  | [] => Some (board, player)
  | cell_index :: calls' =>
      '(board', player') ← try_to_play board_size cell_index board player;
      play_all board_size calls' board' player'
  end.

(** The number of calls of the sequence that change the board. *)
Fixpoint legal_moves (board_size : Z) (calls : list (option CellIndex))
    (board : Board) (player : Player) : nat :=
  match calls with
  | [] => 0
  | cell_index :: calls' =>
      match try_to_play board_size cell_index board player with
      | Some (board', player') =>
          ((if decide (board' = board) then 0 else 1)
           + legal_moves board_size calls' board' player')%nat
      | None => 0%nat
      end
  end.

(** The board after the first [k] calls of a sequence played on the empty
    board. *)
Definition board_after (board_size : Z) (calls : list (option CellIndex))
    (first : Player) (k : nat) : option Board :=
  fst <$> play_all board_size (take k calls) (empty_board board_size) first.

(** Every index of the sequence satisfies the precondition of
    [operator[]]. *)
Definition calls_in_range (board_size : Z)
    (calls : list (option CellIndex)) : Prop :=
  Forall (fun cell_index => forall index, cell_index = Some index ->
            BoardOps.in_range board_size index = true) calls.

(** The number of occupied cells. *)
Definition occupied (board : Board) : nat :=
  length (filter is_Some board).

(** Every index of the line satisfies the precondition of [operator[]]. *)
Definition line_in_range (size : Z) (line : Z -> CellIndex) : Prop :=
  forall k, 0 <= k < size -> BoardOps.in_range size (line k) = true.

(** Some line of [ls] is filled by [player], and no line before it in
    [ls] is filled by a single player. *)
Definition first_won_line (size : Z) (board : Board)
    (ls : list (Z -> CellIndex)) (player : Player) : Prop :=
  exists (i : nat) line,
    ls !! i = Some line /\ line_won_by size board line player /\
    forall (j : nat) line', (j < i)%nat -> ls !! j = Some line' ->
      forall other, ~ line_won_by size board line' other.

(** The board on which column 0 belongs to noughts and column 1 to
    crosses. *)
Definition two_columns : Board :=
  [Some Noughts; Some Crosses; None;
   Some Noughts; Some Crosses; None;
   Some Noughts; Some Crosses; None].

(** Every cell of the board holds a player. *)
Definition all_cells_occupied (size : Z) (board : Board) : Prop :=
  forall index, BoardOps.in_range size index = true ->
    exists player, BoardOps.at_ size board index = Some (Some player).

(** The cell at [index] after the first [k] calls. *)
Definition cell_after (size : Z) (calls : list (option CellIndex))
    (first : Player) (k : nat) (index : CellIndex)
    : option (option Player) :=
  b ← board_after size calls first k; BoardOps.at_ size b index.

(** [c'] shows the pointer and the running flag of [c]. *)
Definition same_window (c c' : Context) : Prop :=
  mouse c' = mouse c /\ running c' = running c.

(** ** An instance of [p6::map]

    The affine map of each component from [[from_min, from_max]] to
    [[to_min, to_max]], computed in binary32.  It serves to run the model on
    concrete inputs; the theorems below are stated for every [p6_map]. *)

Module P6Reference.

Definition sub : float -> float -> float :=
  SFsub Float32.prec Float32.emax.

(** Modelled from the spec: [p6::map] of the p6 library, which is not
    among the sources, on one component.  The specification calls it the
    linear map from [[from_min, from_max]] to [[to_min, to_max]]; here it
    is [(v - from_min) / (from_max - from_min) * (to_max - to_min) + to_min]
    with every operation rounded to binary32. *)
Definition map1 (v from_min from_max to_min to_max : float) : float :=
  Float32.add
    (Float32.mul (Float32.div (sub v from_min) (sub from_max from_min))
                 (sub to_max to_min))
    to_min.

(** Modelled from the spec: [p6::map] on [glm::vec2], component by
    component. *)
Definition map (v from_min from_max to_min to_max : vec2) : vec2 :=
  Vec2 (map1 (vx v) (vx from_min) (vx from_max) (vx to_min) (vx to_max))
       (map1 (vy v) (vy from_min) (vy from_max) (vy to_min) (vy to_max)).

(** The context of a window in which nothing has been drawn yet, the
    pointer at the centre. *)
Definition window : Context :=
  mkContext (Vec2 (Float32.of_int 0) (Float32.of_int 0)) [] []
            (Float32.of_int 1) [] true.

(** The centre of a cell of the 3 by 3 board. *)
Definition centre (x y : Z) : vec2 := cell_center map (mkCellIndex x y) 3.

(** A press on the centre of a cell, and a frame with the pointer at the
    centre of the window. *)
Definition press (x y : Z) : Event := Press (centre x y).
Definition frame : Event := Frame (Vec2 (Float32.of_int 0) (Float32.of_int 0)).

(** Crosses fill the bottom row. *)
Definition crosses_win : list Event :=
  [press 0 0; frame; press 0 1; frame; press 1 0; frame; press 1 1; frame;
   press 2 0; frame; press 2 2; frame].

(** Noughts fill the diagonal. *)
Definition noughts_win : list Event :=
  [press 0 1; press 0 0; press 1 0; press 1 1; press 0 2; frame;
   press 2 2; frame].

(** The largest binary32 number below 1. *)
Definition below_one : float := S754_finite false 16777215 (-24).

End P6Reference.

(** The board with a cross in the middle cell. *)
Definition cross_in_the_middle : Board :=
  [None; None; None; None; Some Crosses; None; None; None; None].

(** The moves of a game that fills the board without a winning line. *)
Definition drawn_game : list (option CellIndex) :=
  [Some (mkCellIndex 1 1); Some (mkCellIndex 0 0); Some (mkCellIndex 2 0);
   Some (mkCellIndex 0 2); Some (mkCellIndex 0 1); Some (mkCellIndex 2 1);
   Some (mkCellIndex 1 0); Some (mkCellIndex 1 2); Some (mkCellIndex 2 2)].

(** A press on a free cell, a press on the same cell, a press outside the
    board, and a press on another free cell. *)
Definition four_presses : list (option CellIndex) :=
  [Some (mkCellIndex 1 1); Some (mkCellIndex 1 1); None;
   Some (mkCellIndex 0 0)].

(** ** Vocabulary for counting and drawing *)

(** The number of cells held by [player]. *)
Definition count_player (player : Player) (board : Board) : nat :=
  length (filter (fun cell => cell = Some player) board).

(** The cell indices in the order the two nested drawing loops visit
    them: [x] in the outer loop, [y] in the inner one. *)
Definition board_indices (size : Z) : list CellIndex :=
  x ← seqZ 0 size; y ← seqZ 0 size; [mkCellIndex x y].

(** A context in which nothing has been drawn. *)
Definition blank : Context :=
  mkContext (Vec2 (Float32.of_int 0) (Float32.of_int 0)) [] []
            (Float32.of_int 0) [] true.

(** The shapes [draw_player] puts on the frame. *)
Definition player_shapes (p6_map : vec2 -> vec2 -> vec2 -> vec2 -> vec2 -> vec2)
    (size : Z) (player : Player) (index : CellIndex) : list Shape :=
  drawn (draw_player p6_map player index size blank).

(** The shapes of the mark on the cell at [index], none for an empty
    cell. *)
Definition cell_shapes (p6_map : vec2 -> vec2 -> vec2 -> vec2 -> vec2 -> vec2)
    (size : Z) (board : Board) (index : CellIndex) : list Shape :=
  match BoardOps.at_ size board index with
  | Some (Some player) => player_shapes p6_map size player index
  | _ => []
  end.

Definition is_press (e : Event) : bool :=
  match e with
  | Press _ => true
  | Frame _ => false
  end.

(** The number of pointer presses among the events. *)
Definition presses (events : list Event) : nat :=
  length (filter (fun e => is_press e = true) events).

(** The lead of [first] over the other player is 0 when [first] is to
    move and 1 otherwise. *)
Definition balanced (first : Player) (b : Board) (to_move : Player) : Prop :=
  count_player first b
  = (count_player (change_player first) b
     + if decide (to_move = first) then 0 else 1)%nat.

(** The game is over on [b]: some line is filled by one player, or every
    cell is occupied. *)
Definition game_over (size : Z) (b : Board) : Prop :=
  (exists line player, line ∈ lines size /\ line_won_by size b line player)
  \/ all_cells_occupied size b.

(** What holds of a session between two events: the board has its
    cells, crosses started, and either nothing has been printed or the loop
    is stopped and the outcome of the board has been printed. *)
Definition session_ok (size : Z) (s : Session) : Prop :=
  board_wf size (board s) /\
  balanced Crosses (board s) (current_player s) /\
  (cout s = EmptyString \/
   (running (ctx s) = false /\
    game_is_finished size (board s) = Some (true, cout s))).

(** The moves of a game in which crosses fill the bottom row with their
    third mark. *)
Definition crosses_row_game : list (option CellIndex) :=
  [Some (mkCellIndex 0 0); Some (mkCellIndex 0 1); Some (mkCellIndex 1 0);
   Some (mkCellIndex 1 1); Some (mkCellIndex 2 0)].

(** The squares of the grid, in the order [draw_board] draws them. *)
Definition board_squares
    (p6_map : vec2 -> vec2 -> vec2 -> vec2 -> vec2 -> vec2) (size : Z)
    : list Shape :=
  (fun index => Square (cell_bottom_left_corner p6_map index size)
                       (cell_radius size)) <$> board_indices size.

(** The shapes of the hover preview: those of [player] on the hovered
    cell when it is empty, none otherwise. *)
Definition preview_shapes
    (p6_map : vec2 -> vec2 -> vec2 -> vec2 -> vec2 -> vec2) (size : Z)
    (b : Board) (player : Player) (pointer : vec2) : list Shape :=
  match cell_hovered_by p6_map pointer size with
  | Some index =>
      match BoardOps.at_ size b index with
      | Some None => player_shapes p6_map size player index
      | _ => []
      end
  | None => []
  end.

(** The colour a frame clears the window with. *)
Definition background_color : list float :=
  [Float32.literal 3 10; Float32.literal 25 100; Float32.literal 35 100].

(** ** Vocabulary for the coordinate mapping *)

(** One component of [cell_hovered_by] with [P6Reference.map]: the
    integer the position [v] is mapped to on a board of size [N]. *)
Definition hovered_component (N : Z) (v : float) : Z :=
  Float32.floor_to_int
    (P6Reference.map1 v (Float32.of_int (-1)) (Float32.of_int 1)
                      (Float32.of_int 0) (Float32.of_int N)).

(** One component of [cell_center] with [P6Reference.map]. *)
Definition center_component (N i : Z) : float :=
  Float32.add
    (P6Reference.map1 (Float32.of_int i) (Float32.of_int 0) (Float32.of_int N)
                      (Float32.of_int (-1)) (Float32.of_int 1))
    (cell_radius N).

(** The component [i] comes back from the centre of its cell. *)
Definition round_trips (N i : Z) : bool :=
  hovered_component N (center_component N i) =? i.

(** Every component of every board of size 1 to [K] comes back. *)
Definition round_trips_up_to (K : Z) : bool :=
  forallb (fun N => forallb (round_trips N) (seqZ 0 N)) (seqZ 1 K).

(** The binary32 number [v] lies in the interval [[-1, +1)]. *)
Definition in_unit_interval (v : float) : bool :=
  SFleb (Float32.of_int (-1)) v && SFltb v (Float32.of_int 1).

(** ** The board *)

Lemma in_range_spec size index :
  BoardOps.in_range size index = true <->
  0 <= x index < size /\ 0 <= y index < size.
Proof. unfold BoardOps.in_range. rewrite !andb_true_iff. lia. Qed.

Lemma offset_lt size (board : Board) index :
  board_wf size board -> BoardOps.in_range size index = true ->
  (BoardOps.offset size index < length board)%nat.
Proof.
  unfold board_wf, BoardOps.offset. intros -> [Hx Hy]%in_range_spec.
  apply Z2Nat.inj_lt; nia.
Qed.

Lemma offset_inj size i j :
  BoardOps.in_range size i = true -> BoardOps.in_range size j = true ->
  BoardOps.offset size i = BoardOps.offset size j -> i = j.
Proof.
  intros [Hxi Hyi]%in_range_spec [Hxj Hyj]%in_range_spec Heq.
  unfold BoardOps.offset in Heq. apply Z2Nat.inj in Heq; [|nia..].
  destruct i as [xi yi], j as [xj yj]; simpl in *.
  assert (yi = yj) by nia. subst. f_equal. lia.
Qed.

Lemma at_is_Some size (board : Board) index :
  board_wf size board -> BoardOps.in_range size index = true ->
  exists cell, BoardOps.at_ size board index = Some cell.
Proof.
  intros Hwf Hin. unfold BoardOps.at_. rewrite Hin.
  apply lookup_lt_is_Some_2. by apply offset_lt.
Qed.

Lemma at_in_range size (board : Board) index cell :
  BoardOps.at_ size board index = Some cell ->
  BoardOps.in_range size index = true.
Proof. unfold BoardOps.at_. by destruct (BoardOps.in_range size index). Qed.

Lemma at_lookup size (board : Board) index :
  BoardOps.in_range size index = true ->
  BoardOps.at_ size board index = board !! BoardOps.offset size index.
Proof. unfold BoardOps.at_. by intros ->. Qed.

Lemma assign_Some size (board : Board) index cell :
  board_wf size board -> BoardOps.in_range size index = true ->
  BoardOps.assign size board index cell =
  Some (<[BoardOps.offset size index := cell]> board).
Proof.
  intros Hwf Hin. unfold BoardOps.assign. rewrite Hin.
  destruct (lookup_lt_is_Some_2 board (BoardOps.offset size index)) as [c ->];
    [by apply offset_lt | done].
Qed.

Lemma board_wf_insert size (board : Board) i cell :
  board_wf size board -> board_wf size (<[i := cell]> board).
Proof. unfold board_wf. by rewrite length_insert. Qed.

Lemma at_insert_eq size (board : Board) index cell :
  board_wf size board -> BoardOps.in_range size index = true ->
  BoardOps.at_ size (<[BoardOps.offset size index := cell]> board) index
  = Some cell.
Proof.
  intros Hwf Hin. rewrite at_lookup by done.
  apply list_lookup_insert_eq. by apply offset_lt.
Qed.

Lemma at_insert_ne size (board : Board) index other cell :
  BoardOps.in_range size index = true -> other <> index ->
  BoardOps.at_ size (<[BoardOps.offset size index := cell]> board) other
  = BoardOps.at_ size board other.
Proof.
  intros Hin Hne. unfold BoardOps.at_.
  destruct (BoardOps.in_range size other) eqn:Hother; [|done].
  apply list_lookup_insert_ne. intros Heq. apply Hne. symmetry.
  by eapply offset_inj.
Qed.

Lemma board_wf_empty size : board_wf size (empty_board size).
Proof. unfold board_wf, empty_board. apply length_replicate. Qed.

Lemma at_empty size index :
  BoardOps.in_range size index = true ->
  BoardOps.at_ size (empty_board size) index = Some None.
Proof.
  intros Hin. rewrite at_lookup by done. apply lookup_replicate_2.
  pose proof (offset_lt size (empty_board size) index (board_wf_empty size) Hin) as H.
  unfold empty_board in H. by rewrite length_replicate in H.
Qed.

(** ** The turn controller *)

Lemma try_to_play_None size (board : Board) player :
  try_to_play size None board player = Some (board, player).
Proof. done. Qed.

Lemma try_to_play_occupied size (board : Board) player index occupant :
  BoardOps.at_ size board index = Some (Some occupant) ->
  try_to_play size (Some index) board player = Some (board, player).
Proof. intros H. unfold try_to_play. by rewrite H. Qed.

Lemma try_to_play_empty size (board : Board) player index :
  board_wf size board ->
  BoardOps.at_ size board index = Some None ->
  try_to_play size (Some index) board player =
  Some (<[BoardOps.offset size index := Some player]> board,
        change_player player).
Proof.
  intros Hwf H. unfold try_to_play. rewrite H. simpl.
  rewrite assign_Some; eauto using at_in_range.
Qed.

Lemma change_player_ne player : change_player player <> player.
Proof. by destruct player. Qed.

(** C3.  [try_to_play] on an absent index or on an occupied cell returns
    the board and the current player as they were, without failing; on an
    empty cell it stores the current player in that cell, leaves every other
    cell as it was and hands the turn to the other player. *)
Theorem try_to_play_correct (size : Z) (board : Board) (player : Player)
    (cell_index : option CellIndex) :
  board_wf size board ->
  (forall index, cell_index = Some index ->
                 BoardOps.in_range size index = true) ->
  (cell_index = None \/
   (exists index occupant, cell_index = Some index /\
      BoardOps.at_ size board index = Some (Some occupant)) ->
   try_to_play size cell_index board player = Some (board, player)) /\
  (forall index, cell_index = Some index ->
     BoardOps.at_ size board index = Some None ->
     exists board',
       try_to_play size cell_index board player
       = Some (board', change_player player) /\
       change_player player <> player /\
       board_wf size board' /\
       BoardOps.at_ size board' index = Some (Some player) /\
       forall other, other <> index ->
         BoardOps.at_ size board' other = BoardOps.at_ size board other).
Proof.
  intros Hwf Hrange. split.
  - intros [-> | (index & occupant & -> & Hocc)].
    + apply try_to_play_None.
    + by eapply try_to_play_occupied.
  - intros index -> Hempty.
    pose proof (Hrange index eq_refl) as Hin.
    eexists. split; [by apply try_to_play_empty|].
    split; [apply change_player_ne|].
    split; [by apply board_wf_insert|].
    split; [by apply at_insert_eq|].
    intros other Hne. by apply at_insert_ne.
Qed.

Lemma try_to_play_correct_witness :
  board_wf 3 (empty_board 3) /\
  exists board',
    try_to_play 3 (Some (mkCellIndex 1 1)) (empty_board 3) Crosses
    = Some (board', Noughts) /\
    BoardOps.at_ 3 board' (mkCellIndex 1 1) = Some (Some Crosses).
Proof.
  split; [reflexivity|].
  destruct (try_to_play_correct 3 (empty_board 3) Crosses
              (Some (mkCellIndex 1 1))) as [_ H].
  - reflexivity.
  - intros index [= <-]. reflexivity.
  - destruct (H _ eq_refl eq_refl) as (b & Hrun & _ & _ & Hcell & _).
    exists b. split; assumption.
Defined.

(** ** The win detector *)

Lemma are_all_equal_loop_spec size (board : Board) line n position :
  board_wf size board ->
  (forall k, position <= k <= position + Z.of_nat n ->
             BoardOps.in_range size (line k) = true) ->
  exists b, are_all_equal_loop size board line n position = Some b /\
    (b = true <->
     forall k, position <= k < position + Z.of_nat n ->
       BoardOps.at_ size board (line k)
       = BoardOps.at_ size board (line (k + 1))).
Proof.
  intros Hwf. revert position.
  induction n as [|n IH]; intros position Hin; simpl.
  - exists true. split; [done|]. split; [intros _ k Hk; lia | done].
  - destruct (at_is_Some size board (line position)) as [a Ha];
      [done | apply Hin; lia |].
    destruct (at_is_Some size board (line (position + 1))) as [b Hb];
      [done | apply Hin; lia |].
    rewrite Ha, Hb. simpl. destruct (decide (a <> b)) as [Hne | Heq].
    + exists false. split; [done|]. split; [done|]. intros Hall.
      exfalso. apply Hne. specialize (Hall position ltac:(lia)). congruence.
    + apply dec_stable in Heq. subst b.
      destruct (IH (position + 1)) as (r & Hr & Hiff); [intros k Hk; apply Hin; lia|].
      exists r. split; [done|]. rewrite Hiff. split.
      * intros Hall k Hk. destruct (decide (k = position)) as [-> | Hk'].
        -- congruence.
        -- apply Hall. lia.
      * intros Hall k Hk. apply Hall. lia.
Qed.

Lemma adjacent_equal_all_equal size (board : Board) line n :
  (forall k, 0 <= k < n ->
     BoardOps.at_ size board (line k) = BoardOps.at_ size board (line (k + 1))) ->
  forall k, 0 <= k <= n ->
    BoardOps.at_ size board (line k) = BoardOps.at_ size board (line 0).
Proof.
  intros Hadj k [Hk0 Hkn]. revert Hkn. pattern k.
  apply natlike_ind; [done | | done].
  intros j Hj IH Hle. replace (Z.succ j) with (j + 1) by lia.
  rewrite <- Hadj by lia. apply IH. lia.
Qed.

Lemma check_for_winner_on_line_spec size (board : Board) line :
  0 < size -> board_wf size board -> line_in_range size line ->
  exists winner, check_for_winner_on_line size board line = Some winner /\
    forall player, winner = Some player <-> line_won_by size board line player.
Proof.
  intros Hsize Hwf Hline. unfold check_for_winner_on_line.
  destruct (are_all_equal_loop_spec size board line (Z.to_nat (size - 1)) 0 Hwf)
    as (b & -> & Hb); [intros k Hk; apply Hline; lia|].
  simpl. rewrite Z2Nat.id in Hb by lia.
  destruct (at_is_Some size board (line 0)) as [first Hfirst];
    [done | apply Hline; lia |].
  destruct b.
  - rewrite Hfirst. simpl.
    assert (Hall : forall k, 0 <= k < size ->
              BoardOps.at_ size board (line k) = Some first).
    { intros k Hk. rewrite <- Hfirst.
      apply (adjacent_equal_all_equal size board line (size - 1)); [|lia].
      intros j Hj. apply Hb; [done | lia]. }
    destruct first as [p|].
    + exists (Some p). split; [done|]. intros player. split.
      * intros [= <-]. exact Hall.
      * intros Hwon. specialize (Hwon 0 ltac:(lia)). congruence.
    + exists None. split; [done|]. intros player. split; [done|].
      intros Hwon. specialize (Hwon 0 ltac:(lia)). congruence.
  - exists None. split; [done|]. intros player. split; [done|].
    intros Hwon. assert (false = true); [|done]. apply Hb.
    intros k Hk. rewrite !Hwon; [done | lia..].
Qed.

Lemma scan_lines_first_winner size (board : Board) line n i :
  0 <= i ->
  scan_lines size board line n i None
  = first_winner size board (line <$> seqZ i (Z.of_nat n)).
Proof.
  revert i. induction n as [|n IH]; intros i Hi.
  - done.
  - rewrite Nat2Z.inj_succ, seqZ_cons by lia. simpl.
    destruct (check_for_winner_on_line size board (line i)) as [[p|]|]; simpl.
    + by destruct n.
    + rewrite IH by lia. do 3 f_equal. lia.
    + done.
Qed.

Lemma first_winner_app size (board : Board) ls1 ls2 :
  first_winner size board (ls1 ++ ls2)
  = winner ← first_winner size board ls1;
    match winner with
    | Some player => Some (Some player)
    | None => first_winner size board ls2
    end.
Proof.
  induction ls1 as [|line ls1 IH]; simpl.
  - by destruct (first_winner size board ls2) as [[?|]|].
  - destruct (check_for_winner_on_line size board line) as [[p|]|]; simpl; done.
Qed.

Lemma check_for_winner_first_winner size (board : Board) :
  0 <= size ->
  check_for_winner size board = first_winner size board (lines size).
Proof.
  intros Hsize. unfold check_for_winner, lines.
  rewrite !scan_lines_first_winner, Z2Nat.id by lia.
  rewrite first_winner_app.
  destruct (first_winner size board (column <$> seqZ 0 size)) as [[p|]|];
    simpl; [|  |done].
  - destruct (Z.to_nat size); simpl; done.
  - rewrite scan_lines_first_winner, Z2Nat.id by lia.
    rewrite first_winner_app.
    destruct (first_winner size board (row <$> seqZ 0 size)) as [[p|]|];
      simpl; [done | | done].
    destruct (check_for_winner_on_line size board diagonal) as [[p|]|];
      simpl; [done | | done].
    by destruct (check_for_winner_on_line size board (anti_diagonal size))
      as [[p|]|].
Qed.

Lemma first_winner_spec size (board : Board) ls :
  0 < size -> board_wf size board -> Forall (line_in_range size) ls ->
  exists winner, first_winner size board ls = Some winner /\
    (forall player,
       winner = Some player <-> first_won_line size board ls player) /\
    (winner = None <->
     forall line, line ∈ ls -> forall player,
       ~ line_won_by size board line player).
Proof.
  intros Hsize Hwf. induction 1 as [|line ls Hline Hls IH]; simpl.
  - exists None. split; [done|]. split.
    + intros player. split; [done|]. by intros (i & l & ? & _).
    + split; [|done]. intros _ line Hin. by apply elem_of_nil in Hin.
  - destruct (check_for_winner_on_line_spec size board line)
      as (w & -> & Hw); [done..|]. simpl.
    destruct w as [p|].
    + exists (Some p). split; [done|]. split.
      * intros player. split.
        -- intros [= <-]. exists 0%nat, line. split; [done|].
           split; [by apply Hw | intros; lia].
        -- intros (i & l & Hi & Hwon & Hfirst). destruct i as [|i].
           ++ simpl in Hi. injection Hi as <-. f_equal. symmetry.
              apply Hw in Hwon. congruence.
           ++ exfalso. apply (Hfirst 0%nat line ltac:(lia) eq_refl p).
              by apply Hw.
      * split; [done|]. intros Hnone. exfalso.
        apply (Hnone line (list_elem_of_here _ _) p). by apply Hw.
    + destruct IH as (w & -> & Hsome & Hnone). exists w.
      assert (Hlost : forall other, ~ line_won_by size board line other).
      { intros other Hwon. apply Hw in Hwon. done. }
      split; [done|]. split.
      * intros player. rewrite Hsome. split.
        -- intros (i & l & Hi & Hwon & Hfirst). exists (S i), l.
           split; [done|]. split; [done|].
           intros [|j] l' Hj Hl'; simpl in Hl'.
           ++ injection Hl' as <-. apply Hlost.
           ++ apply (Hfirst j); [lia | done].
        -- intros (i & l & Hi & Hwon & Hfirst). destruct i as [|i].
           ++ simpl in Hi. injection Hi as <-. by apply Hlost in Hwon.
           ++ exists i, l. split; [done|]. split; [done|].
              intros j l' Hj Hl'. apply (Hfirst (S j)); [lia | done].
      * rewrite Hnone. split.
        -- intros Hall l [-> | Hin]%elem_of_cons; [apply Hlost | by apply Hall].
        -- intros Hall l Hin. apply Hall. by apply elem_of_cons; right.
Qed.

Lemma lines_in_range size : Forall (line_in_range size) (lines size).
Proof.
  unfold lines. rewrite !Forall_app, !Forall_fmap. repeat split.
  - apply Forall_forall. intros i Hi%elem_of_seqZ k Hk. simpl.
    apply in_range_spec. simpl. lia.
  - apply Forall_forall. intros i Hi%elem_of_seqZ k Hk. simpl.
    apply in_range_spec. simpl. lia.
  - repeat constructor; intros k Hk; apply in_range_spec; simpl; lia.
Qed.

(** C1, as stated, fails: on [two_columns] a column is filled with crosses,
    and [check_for_winner] answers noughts. *)
Lemma check_for_winner_not_iff :
  board_wf 3 two_columns /\
  (exists line, line ∈ lines 3 /\ line_won_by 3 two_columns line Crosses) /\
  check_for_winner 3 two_columns = Some (Some Noughts) /\
  check_for_winner 3 two_columns <> Some (Some Crosses).
Proof.
  split; [reflexivity|]. split.
  - exists (column 1). split.
    + unfold lines. apply elem_of_app. left. apply list_elem_of_fmap.
      exists 1. split; [done|]. apply elem_of_seqZ. lia.
    + intros k Hk.
      assert (k = 0 \/ k = 1 \/ k = 2) as [-> | [-> | ->]] by lia;
        reflexivity.
  - split; [reflexivity | discriminate].
Qed.

(** C1, amended.  On a board of size at least 1, [check_for_winner] returns
    [player] exactly when the first line, in the order columns, rows,
    diagonal, anti-diagonal, whose cells all hold one same player holds
    [player]; it returns no winner exactly when no line is filled by a
    single player.  So a returned winner fills some line, and a player who
    fills a line is returned unless the other player fills an earlier one. *)
Theorem check_for_winner_first_won_line (size : Z) (board : Board) :
  0 < size -> board_wf size board ->
  exists winner, check_for_winner size board = Some winner /\
    (forall player,
       winner = Some player <->
       first_won_line size board (lines size) player) /\
    (winner = None <->
     forall line, line ∈ lines size -> forall player,
       ~ line_won_by size board line player) /\
    (forall player, winner = Some player ->
       exists line, line ∈ lines size /\
                    line_won_by size board line player) /\
    (forall player line, line ∈ lines size ->
       line_won_by size board line player ->
       (forall line', line' ∈ lines size ->
          ~ line_won_by size board line' (change_player player)) ->
       winner = Some player).
Proof.
  intros Hsize Hwf. rewrite check_for_winner_first_winner by lia.
  destruct (first_winner_spec size board (lines size) Hsize Hwf
              (lines_in_range size)) as (winner & Hrun & Hsome & Hnone).
  exists winner. split; [done|]. split; [done|]. split; [done|]. split.
  - intros player (i & line & Hi & Hwon & _)%Hsome.
    exists line. split; [by eapply list_elem_of_lookup_2 | done].
  - intros player line Hin Hwon Hother.
    destruct winner as [p|].
    + destruct (decide (p = player)) as [-> | Hne]; [done|]. exfalso.
      destruct (proj1 (Hsome p) eq_refl) as (i & l & Hi & Hl & _).
      apply (Hother l); [by eapply list_elem_of_lookup_2|].
      by destruct p, player.
    + exfalso. by apply (proj1 Hnone eq_refl line Hin player).
Qed.

Lemma check_for_winner_first_won_line_witness :
  0 < 3 /\ board_wf 3 two_columns /\
  exists winner, check_for_winner 3 two_columns = Some winner /\
    (winner = Some Noughts <->
     first_won_line 3 two_columns (lines 3) Noughts).
Proof.
  split; [lia|]. split; [reflexivity|].
  destruct (check_for_winner_first_won_line 3 two_columns)
    as (winner & Hrun & Hsome & _); [lia | reflexivity |].
  exists winner. split; [exact Hrun | apply Hsome].
Defined.

(** ** Full boards and the end of the game *)

Lemma board_is_full_Forall (board : Board) :
  board_is_full board = true <-> Forall is_Some board.
Proof.
  unfold board_is_full. induction board as [|cell board IH]; simpl.
  - split; [constructor | done].
  - rewrite andb_true_iff, IH, Forall_cons, bool_decide_eq_true. done.
Qed.

Lemma offset_of_position size (i : nat) :
  0 < size -> (i < Z.to_nat (size * size))%nat ->
  let index := mkCellIndex (Z.of_nat i mod size) (Z.of_nat i / size) in
  BoardOps.in_range size index = true /\ BoardOps.offset size index = i.
Proof.
  intros Hsize Hi. simpl. split.
  - apply in_range_spec. simpl.
    pose proof (Z.mod_pos_bound (Z.of_nat i) size Hsize).
    assert (Z.of_nat i < size * size) by lia.
    split; [done|]. split; [apply Z.div_pos; lia|].
    apply Z.div_lt_upper_bound; lia.
  - unfold BoardOps.offset. simpl.
    rewrite <- (Nat2Z.id i) at 3. f_equal.
    pose proof (Z.div_mod (Z.of_nat i) size). lia.
Qed.

Lemma board_is_full_spec size (board : Board) :
  0 < size -> board_wf size board ->
  board_is_full board = true <-> all_cells_occupied size board.
Proof.
  intros Hsize Hwf. rewrite board_is_full_Forall, Forall_lookup. split.
  - intros Hall index Hin.
    destruct (at_is_Some size board index Hwf Hin) as [cell Hcell].
    rewrite Hcell. rewrite at_lookup in Hcell by done.
    destruct (Hall _ _ Hcell) as [player ->]. by exists player.
  - intros Hall i cell Hi.
    pose proof (lookup_lt_Some _ _ _ Hi) as Hlt. rewrite Hwf in Hlt.
    destruct (offset_of_position size i Hsize Hlt) as [Hin Hoff].
    destruct (Hall _ Hin) as [player Hplayer].
    rewrite at_lookup, Hoff in Hplayer by done.
    exists player. congruence.
Qed.

Lemma victory_line_not_draw player : victory_line player <> This_is_a_draw.
Proof. by destruct player. Qed.

(** C6.  [game_is_finished] returns without failing.  When
    [check_for_winner] finds a winner, it prints the victory line of that
    player and returns true.  It prints the draw line exactly when
    [check_for_winner] finds no winner and every cell is occupied, and then
    returns true.  While some line is filled by one player it prints a
    victory line, never the draw line. *)
Theorem game_is_finished_winner_before_draw (size : Z) (board : Board) :
  0 < size -> board_wf size board ->
  exists finished text,
    game_is_finished size board = Some (finished, text) /\
    (forall player, check_for_winner size board = Some (Some player) ->
       finished = true /\ text = victory_line player) /\
    (text = This_is_a_draw <->
     check_for_winner size board = Some None /\
     all_cells_occupied size board) /\
    (text = This_is_a_draw -> finished = true) /\
    ((exists line player, line ∈ lines size /\
        line_won_by size board line player) ->
     finished = true /\ text <> This_is_a_draw /\
     (text = Noughts_have_won \/ text = Crosses_have_won)).
Proof.
  intros Hsize Hwf. unfold game_is_finished.
  rewrite check_for_winner_first_winner by lia.
  destruct (first_winner_spec size board (lines size) Hsize Hwf
              (lines_in_range size)) as (winner & -> & Hsome & Hnone).
  simpl. pose proof (board_is_full_spec size board Hsize Hwf) as Hfull_iff.
  destruct winner as [p|].
  - exists true, (victory_line p). split; [by destruct p|].
    split; [by intros player [= <-]|].
    split; [split; [by intros ?%victory_line_not_draw | by intros [? _]]|].
    split; [done|]. intros _. split; [done|].
    split; [apply victory_line_not_draw | destruct p; auto].
  - destruct (board_is_full board) eqn:Hfull.
    + exists true, This_is_a_draw. split; [done|]. split; [done|].
      split; [split; [intros _; split; [done | by apply Hfull_iff] | done]|].
      split; [done|].
      intros (line & player & Hin & Hwon). exfalso.
      by apply (proj1 Hnone eq_refl line Hin player).
    + exists false, EmptyString. split; [done|]. split; [done|].
      split; [split; [done | intros [_ Hocc%Hfull_iff]; done]|].
      split; [done|].
      intros (line & player & Hin & Hwon). exfalso.
      by apply (proj1 Hnone eq_refl line Hin player).
Qed.

Lemma game_is_finished_winner_before_draw_witness :
  0 < 3 /\ board_wf 3 two_columns /\
  exists finished text,
    game_is_finished 3 two_columns = Some (finished, text) /\
    (text = This_is_a_draw -> finished = true).
Proof.
  split; [lia|]. split; [reflexivity|].
  destruct (game_is_finished_winner_before_draw 3 two_columns)
    as (finished & text & Hrun & _ & _ & Hdraw & _); [lia | reflexivity |].
  exists finished, text. split; assumption.
Defined.

(** ** Sequences of moves *)

Lemma try_to_play_step size (board : Board) player cell_index :
  board_wf size board ->
  (forall index, cell_index = Some index ->
                 BoardOps.in_range size index = true) ->
  exists board' player',
    try_to_play size cell_index board player = Some (board', player') /\
    board_wf size board' /\
    ((board' = board /\ player' = player) \/
     (exists index, cell_index = Some index /\
        BoardOps.at_ size board index = Some None /\
        board' = <[BoardOps.offset size index := Some player]> board /\
        player' = change_player player)).
Proof.
  intros Hwf Hin. destruct cell_index as [index|].
  - specialize (Hin index eq_refl).
    destruct (at_is_Some size board index Hwf Hin) as [[occupant|] Hcell].
    + exists board, player. rewrite (try_to_play_occupied _ _ _ _ _ Hcell). auto.
    + eexists _, _. rewrite (try_to_play_empty _ _ _ _ Hwf Hcell).
      split; [done|]. split; [by apply board_wf_insert|].
      right. by exists index.
  - exists board, player. auto.
Qed.

Lemma insert_changes_board size (board : Board) index player :
  board_wf size board -> BoardOps.at_ size board index = Some None ->
  <[BoardOps.offset size index := Some player]> board <> board.
Proof.
  intros Hwf Hcell Heq. pose proof (at_in_range _ _ _ _ Hcell) as Hin.
  pose proof (at_insert_eq size board index (Some player) Hwf Hin) as H.
  rewrite Heq in H. congruence.
Qed.

Lemma play_all_app size calls1 calls2 (board : Board) player :
  play_all size (calls1 ++ calls2) board player
  = '(board', player') ← play_all size calls1 board player;
    play_all size calls2 board' player'.
Proof.
  revert board player.
  induction calls1 as [|c calls1 IH]; intros board player; simpl.
  - by destruct (play_all size calls2 board player).
  - destruct (try_to_play size c board player) as [[b p]|]; simpl; [|done].
    apply IH.
Qed.

Lemma play_all_total size calls (board : Board) player :
  board_wf size board -> calls_in_range size calls ->
  exists board' player',
    play_all size calls board player = Some (board', player') /\
    board_wf size board'.
Proof.
  intros Hwf Hcalls. revert board player Hwf.
  induction Hcalls as [|c calls Hc Hcalls IH]; intros board player Hwf; simpl.
  - by exists board, player.
  - destruct (try_to_play_step size board player c Hwf Hc)
      as (b & p & -> & Hwf' & _). simpl. by apply IH.
Qed.

Lemma calls_in_range_take size calls k :
  calls_in_range size calls -> calls_in_range size (take k calls).
Proof. apply Forall_take. Qed.

Lemma board_after_total size calls first k :
  calls_in_range size calls ->
  exists b, board_after size calls first k = Some b /\ board_wf size b.
Proof.
  intros Hcalls. unfold board_after.
  destruct (play_all_total size (take k calls) (empty_board size) first)
    as (b & p & -> & Hwf);
    [apply board_wf_empty | by apply calls_in_range_take |].
  by exists b.
Qed.

(** One more call: the board after [S k] calls is the board after [k]
    calls, either as it was or with one empty cell filled. *)
Lemma board_after_S size calls first k c :
  calls_in_range size calls -> calls !! k = Some c ->
  exists b b',
    board_after size calls first k = Some b /\
    board_after size calls first (S k) = Some b' /\
    board_wf size b /\ board_wf size b' /\
    (b' = b \/
     exists index player, c = Some index /\
       BoardOps.at_ size b index = Some None /\
       b' = <[BoardOps.offset size index := Some player]> b).
Proof.
  intros Hcalls Hc. unfold board_after.
  rewrite (take_S_r _ _ _ Hc), play_all_app.
  destruct (play_all_total size (take k calls) (empty_board size) first)
    as (b & p & -> & Hwf);
    [apply board_wf_empty | by apply calls_in_range_take |].
  simpl.
  assert (Hin : forall index, c = Some index ->
                  BoardOps.in_range size index = true).
  { eapply Forall_lookup_1 in Hcalls; [|exact Hc]. exact Hcalls. }
  destruct (try_to_play_step size b p c Hwf Hin)
    as (b' & p' & -> & Hwf' & Hstep). simpl.
  exists b, b'. split; [done|]. split; [done|]. split; [done|].
  split; [done|].
  destruct Hstep as [[-> _] | (index & -> & Hcell & -> & _)]; [by left|].
  right. by exists index, p.
Qed.

Lemma cell_after_S size calls first k index :
  calls_in_range size calls -> (k < length calls)%nat ->
  cell_after size calls first (S k) index = cell_after size calls first k index
  \/ (cell_after size calls first k index = Some None /\
      exists player, cell_after size calls first (S k) index
                     = Some (Some player)).
Proof.
  intros Hcalls Hk. destruct (lookup_lt_is_Some_2 calls k Hk) as [c Hc].
  destruct (board_after_S size calls first k c Hcalls Hc)
    as (b & b' & Hb & Hb' & Hwf & Hwf' & Hstep).
  unfold cell_after. rewrite Hb, Hb'. simpl.
  destruct Hstep as [-> | (written & player & -> & Hcell & ->)]; [by left|].
  pose proof (at_in_range _ _ _ _ Hcell) as Hin.
  destruct (decide (index = written)) as [-> | Hne].
  - right. split; [done|]. exists player. by apply at_insert_eq.
  - left. by apply at_insert_ne.
Qed.

Lemma cell_after_ge size calls first k index :
  (length calls <= k)%nat ->
  cell_after size calls first k index
  = cell_after size calls first (length calls) index.
Proof.
  intros Hk. unfold cell_after, board_after.
  by rewrite !take_ge by lia.
Qed.

Lemma cell_after_0 size calls first index :
  BoardOps.in_range size index = true ->
  cell_after size calls first 0 index = Some None.
Proof.
  intros Hin. unfold cell_after, board_after. rewrite take_0. simpl.
  by apply at_empty.
Qed.

(** An occupied cell keeps its occupant. *)
Lemma cell_after_mono size calls first k k' index player :
  calls_in_range size calls -> (k <= k')%nat ->
  cell_after size calls first k index = Some (Some player) ->
  cell_after size calls first k' index = Some (Some player).
Proof.
  intros Hcalls Hle Hcell. induction Hle as [|k' Hle IH]; [done|].
  destruct (decide (k' < length calls)%nat) as [Hlt | Hge].
  - destruct (cell_after_S size calls first k' index Hcalls Hlt)
      as [-> | [Hnone _]]; [done | congruence].
  - rewrite cell_after_ge by lia. rewrite cell_after_ge in IH by lia. done.
Qed.

Lemma cell_after_first_set size calls first n index player :
  calls_in_range size calls ->
  cell_after size calls first n index = Some (Some player) ->
  exists k, (k < n)%nat /\ (k < length calls)%nat /\
    cell_after size calls first k index = Some None /\
    cell_after size calls first (S k) index = Some (Some player).
Proof.
  intros Hcalls. induction n as [|n IH]; intros Hcell.
  - assert (BoardOps.in_range size index = true) as Hin.
    { unfold cell_after in Hcell.
      destruct (board_after size calls first 0) as [b|]; [|done].
      by eapply at_in_range. }
    rewrite cell_after_0 in Hcell by done. done.
  - destruct (decide (n < length calls)%nat) as [Hlt | Hge].
    + destruct (cell_after_S size calls first n index Hcalls Hlt)
        as [Heq | [Hnone [p Hp]]].
      * rewrite Heq in Hcell. destruct (IH Hcell) as (k & ? & ?).
        exists k. split; [lia | done].
      * exists n. split; [lia|]. split; [done|]. split; [done|]. done.
    + rewrite cell_after_ge in Hcell by lia.
      rewrite <- (cell_after_ge size calls first n) in Hcell by lia.
      destruct (IH Hcell) as (k & ? & ?). exists k. split; [lia | done].
Qed.

(** C4.  On the empty board, a sequence of [try_to_play] calls runs to its
    end.  A call changes a cell only from empty to occupied; an occupied
    cell keeps its occupant through all later calls; and every cell occupied
    at the end was set by exactly one call of the sequence. *)
Theorem moves_never_overwrite (size : Z) (calls : list (option CellIndex))
    (first : Player) :
  calls_in_range size calls ->
  (forall k, exists b,
     board_after size calls first k = Some b /\ board_wf size b) /\
  (forall k index, (k < length calls)%nat ->
     cell_after size calls first (S k) index
     <> cell_after size calls first k index ->
     cell_after size calls first k index = Some None /\
     exists player,
       cell_after size calls first (S k) index = Some (Some player)) /\
  (forall k k' index player, (k <= k')%nat ->
     cell_after size calls first k index = Some (Some player) ->
     cell_after size calls first k' index = Some (Some player)) /\
  (forall index player,
     cell_after size calls first (length calls) index = Some (Some player) ->
     exists k, (k < length calls)%nat /\
       cell_after size calls first k index = Some None /\
       cell_after size calls first (S k) index = Some (Some player) /\
       forall k', (k' < length calls)%nat ->
         cell_after size calls first (S k') index
         <> cell_after size calls first k' index -> k' = k).
Proof.
  intros Hcalls.
  assert (Hchange : forall k index, (k < length calls)%nat ->
     cell_after size calls first (S k) index
     <> cell_after size calls first k index ->
     cell_after size calls first k index = Some None /\
     exists player,
       cell_after size calls first (S k) index = Some (Some player)).
  { intros k index Hk Hne.
    by destruct (cell_after_S size calls first k index Hcalls Hk). }
  split; [intros k; by apply board_after_total|].
  split; [exact Hchange|].
  split; [intros k k' index player Hle; by apply cell_after_mono|].
  intros index player Hend.
  destruct (cell_after_first_set size calls first _ index player Hcalls Hend)
    as (k & _ & Hk & Hbefore & Hafter).
  exists k. split; [done|]. split; [done|]. split; [done|].
  intros k' Hk' Hne. destruct (Hchange k' index Hk' Hne) as [Hnone [p Hp]].
  destruct (Nat.lt_trichotomy k' k) as [Hlt | [-> | Hgt]]; [|done|].
  - pose proof (cell_after_mono size calls first (S k') k index p Hcalls
                  ltac:(lia) Hp). congruence.
  - pose proof (cell_after_mono size calls first (S k) k' index player Hcalls
                  ltac:(lia) Hafter). congruence.
Qed.

Lemma four_presses_in_range : calls_in_range 3 four_presses.
Proof.
  unfold four_presses.
  repeat constructor; by intros index [= <-].
Qed.

Lemma moves_never_overwrite_witness :
  calls_in_range 3 four_presses /\
  forall k k' index player, (k <= k')%nat ->
    cell_after 3 four_presses Crosses k index = Some (Some player) ->
    cell_after 3 four_presses Crosses k' index = Some (Some player).
Proof.
  split; [exact four_presses_in_range|].
  destruct (moves_never_overwrite 3 four_presses Crosses four_presses_in_range)
    as (_ & _ & Hkeep & _).
  exact Hkeep.
Defined.

(** ** Counting moves *)

Lemma occupied_le_length (board : Board) :
  (occupied board <= length board)%nat.
Proof. apply length_filter. Qed.

Lemma occupied_insert (board : Board) i player :
  board !! i = Some None ->
  occupied (<[i := Some player]> board) = S (occupied board).
Proof.
  unfold occupied. revert i. induction board as [|cell board IH]; intros i Hi.
  - done.
  - destruct i as [|i]; simpl in *.
    + injection Hi as ->. rewrite !filter_cons.
      destruct (decide (is_Some (Some player))) as [_ | Hn];
        [|by destruct Hn].
      destruct (decide (is_Some (@None Player))) as [[? ?] | _]; done.
    + rewrite !filter_cons. destruct (decide (is_Some cell)); simpl;
        by rewrite IH.
Qed.

Lemma occupied_full (board : Board) :
  occupied board = length board -> board_is_full board = true.
Proof.
  rewrite board_is_full_Forall. unfold occupied.
  induction board as [|cell board IH]; [constructor|].
  rewrite filter_cons. destruct (decide (is_Some cell)) as [Hc | Hc]; simpl.
  - intros [= H]. constructor; auto.
  - intros H. pose proof (length_filter is_Some board). lia.
Qed.

Lemma occupied_empty size : occupied (empty_board size) = 0%nat.
Proof.
  unfold occupied, empty_board.
  induction (Z.to_nat (size * size)) as [|n IH]; [done|].
  simpl. rewrite filter_cons.
  by destruct (decide (is_Some (@None Player))) as [[? ?] | _].
Qed.

(** The occupied cells count the legal moves. *)
Lemma play_all_occupied size calls (board : Board) player :
  board_wf size board -> calls_in_range size calls ->
  exists board' player',
    play_all size calls board player = Some (board', player') /\
    board_wf size board' /\
    occupied board'
    = (occupied board + legal_moves size calls board player)%nat.
Proof.
  intros Hwf Hcalls. revert board player Hwf.
  induction Hcalls as [|c calls Hc Hcalls IH]; intros board player Hwf; simpl.
  - exists board, player. split; [done|]. split; [done | lia].
  - destruct (try_to_play_step size board player c Hwf Hc)
      as (b & p & -> & Hwf' & Hstep). simpl.
    destruct (IH b p Hwf') as (b' & p' & -> & Hwf'' & Hcount).
    exists b', p'. split; [done|]. split; [done|]. rewrite Hcount.
    destruct Hstep as [[-> ->] | (index & -> & Hcell & -> & _)].
    + rewrite decide_True by done. lia.
    + rewrite decide_False by (by eapply insert_changes_board).
      rewrite occupied_insert;
        [lia | by rewrite <- at_lookup by (by eapply at_in_range)].
Qed.

(** ** Drawing and the session *)

Lemma game_is_finished_cases size (board : Board) :
  0 < size -> board_wf size board ->
  (exists player, check_for_winner size board = Some (Some player) /\
     game_is_finished size board = Some (true, victory_line player)) \/
  (check_for_winner size board = Some None /\
   game_is_finished size board
   = Some (if board_is_full board then (true, This_is_a_draw)
           else (false, EmptyString))).
Proof.
  intros Hsize Hwf. unfold game_is_finished.
  rewrite check_for_winner_first_winner by lia.
  destruct (first_winner_spec size board (lines size) Hsize Hwf
              (lines_in_range size)) as ([p|] & -> & _); simpl.
  - left. exists p. by destruct p.
  - right. by destruct (board_is_full board).
Qed.

Lemma append_empty_r (s : string) : (s ++ EmptyString)%string = s.
Proof. induction s as [|a s IH]; simpl; [done | by rewrite IH]. Qed.

Section RenderingFacts.

Variable p6_map : vec2 -> vec2 -> vec2 -> vec2 -> vec2 -> vec2.

Lemma for_each_ind {S : Type} (P : S -> Prop) size (body : Z -> S -> S) s :
  P s -> (forall i s, 0 <= i < size -> P s -> P (body i s)) ->
  P (for_each size body s).
Proof.
  intros Hs Hbody. unfold for_each.
  assert (Hl : forall i, i ∈ seqZ 0 size -> 0 <= i < size)
    by (intros i Hi%elem_of_seqZ; lia).
  revert s Hs. induction (seqZ 0 size) as [|i l IH]; intros s Hs; simpl.
  - done.
  - apply IH.
    + intros j Hj. apply Hl. by apply elem_of_cons; right.
    + apply Hbody; [|done]. apply Hl. by apply elem_of_cons; left.
Qed.

Lemma cell_hovered_by_in_range position size index :
  cell_hovered_by p6_map position size = Some index ->
  BoardOps.in_range size index = true.
Proof.
  unfold cell_hovered_by, BoardOps.in_range. simpl.
  intros H. case_match; [|done]. by injection H as <-.
Qed.

Lemma same_window_refl c : same_window c c.
Proof. done. Qed.

Lemma same_window_trans c1 c2 c3 :
  same_window c1 c2 -> same_window c2 c3 -> same_window c1 c3.
Proof. unfold same_window. intros [-> ->] [-> ->]. done. Qed.

Lemma draw_player_same_window player index size c :
  same_window c (draw_player p6_map player index size c).
Proof. by destruct player. Qed.

(** [draw_player] adds shapes and touches none that is there. *)
Lemma draw_player_draws player index size c :
  exists shapes, shapes <> [] /\
    drawn (draw_player p6_map player index size c) = drawn c ++ shapes.
Proof.
  destruct player; simpl.
  - eexists [_]. split; [done|]. reflexivity.
  - eexists [_; _]. split; [done|]. simpl. by rewrite <- app_assoc.
Qed.

Lemma draw_board_same_window size c :
  same_window c (draw_board p6_map size c).
Proof.
  unfold draw_board.
  apply (for_each_ind (same_window c)); [done|]. intros x c1 _ H1.
  apply (for_each_ind (same_window c)); [done|]. intros y c2 _ H2.
  eapply same_window_trans; [exact H2 | done].
Qed.

Lemma draw_noughts_and_crosses_total size (board : Board) c :
  board_wf size board ->
  exists c', draw_noughts_and_crosses p6_map size board c = Some c' /\
             same_window c c'.
Proof.
  intros Hwf. unfold draw_noughts_and_crosses.
  apply (for_each_ind (fun o => exists c', o = Some c' /\ same_window c c'));
    [by exists c|].
  intros x o1 Hx H1.
  apply (for_each_ind (fun o => exists c', o = Some c' /\ same_window c c'));
    [done|].
  intros y o2 Hy (c2 & -> & H2). simpl.
  destruct (at_is_Some size board (mkCellIndex x y) Hwf) as [cell ->];
    [apply in_range_spec; simpl; lia|].
  simpl. destruct cell as [player|]; [|by exists c2].
  eexists. split; [done|].
  eapply same_window_trans; [exact H2 | apply draw_player_same_window].
Qed.

Lemma try_draw_player_on_hovered_cell_cases size player (board : Board) c :
  board_wf size board ->
  (exists index,
     cell_hovered_by p6_map (mouse c) size = Some index /\
     BoardOps.at_ size board index = Some None /\
     try_draw_player_on_hovered_cell p6_map size player board c
     = Some (draw_player p6_map player index size c)) \/
  ((cell_hovered_by p6_map (mouse c) size = None \/
    exists index occupant,
      cell_hovered_by p6_map (mouse c) size = Some index /\
      BoardOps.at_ size board index = Some (Some occupant)) /\
   try_draw_player_on_hovered_cell p6_map size player board c = Some c).
Proof.
  intros Hwf. unfold try_draw_player_on_hovered_cell.
  destruct (cell_hovered_by p6_map (mouse c) size) as [index|] eqn:Hhover;
    [|right; auto].
  apply cell_hovered_by_in_range in Hhover.
  destruct (at_is_Some size board index Hwf Hhover) as [[occupant|] Hcell];
    rewrite Hcell; simpl.
  - right. split; [|done]. right. by exists index, occupant.
  - left. by exists index.
Qed.

(** C9.  [try_draw_player_on_hovered_cell] returns without failing; it
    adds shapes to the frame exactly when the pointer hovers a cell and
    that cell is empty, and the shapes are then those of the given player
    on the hovered cell; in every other case, an occupied hovered cell
    among them, the context is left as it was. *)
Theorem hover_preview_only_on_empty_cell (size : Z) (player : Player)
    (board : Board) (c : Context) :
  board_wf size board ->
  exists c',
    try_draw_player_on_hovered_cell p6_map size player board c = Some c' /\
    (drawn c' <> drawn c <->
     exists index, cell_hovered_by p6_map (mouse c) size = Some index /\
                   BoardOps.at_ size board index = Some None) /\
    (forall index, cell_hovered_by p6_map (mouse c) size = Some index ->
       BoardOps.at_ size board index = Some None ->
       c' = draw_player p6_map player index size c) /\
    (forall index occupant,
       cell_hovered_by p6_map (mouse c) size = Some index ->
       BoardOps.at_ size board index = Some (Some occupant) -> c' = c) /\
    (cell_hovered_by p6_map (mouse c) size = None -> c' = c).
Proof.
  intros Hwf.
  destruct (try_draw_player_on_hovered_cell_cases size player board c Hwf)
    as [(index & Hhover & Hcell & ->) | [Hno ->]].
  - eexists. split; [done|]. split; [|split; [|split]].
    + split; [intros _; by exists index|]. intros _.
      destruct (draw_player_draws player index size c) as (shapes & Hne & ->).
      intros Heq. apply Hne.
      apply (app_inv_head (drawn c)). by rewrite app_nil_r.
    + intros index' Hhover' _. congruence.
    + intros index' occupant Hhover' Hcell'. congruence.
    + congruence.
  - exists c. split; [done|]. split; [|split; [|split]].
    + split; [done|]. intros (index & Hhover & Hcell).
      destruct Hno as [Hnone | (index' & occupant & Hhover' & Hcell')];
        congruence.
    + intros index Hhover Hcell.
      destruct Hno as [Hnone | (index' & occupant & Hhover' & Hcell')];
        congruence.
    + done.
    + done.
Qed.

Lemma update_total size (s : Session) :
  0 < size -> board_wf size (board s) ->
  exists s' finished text,
    update p6_map size s = Some s' /\
    game_is_finished size (board s) = Some (finished, text) /\
    board s' = board s /\ current_player s' = current_player s /\
    cout s' = (cout s ++ text)%string /\
    running (ctx s') = (if finished then false else running (ctx s)).
Proof.
  intros Hsize Hwf. unfold update.
  set (c0 := draw_board p6_map size _).
  assert (Hc0 : running c0 = running (ctx s)).
  { subst c0. by destruct (draw_board_same_window size
      (set_fill (Float32.of_int <$> [0; 0; 0; 0])
         (set_stroke (Float32.of_int <$> [1; 1; 1; 1])
            (set_stroke_weight (Float32.literal 1 100)
               (draw (Background [Float32.literal 3 10;
                                  Float32.literal 25 100;
                                  Float32.literal 35 100]) (ctx s))))))
      as [_ ->]. }
  destruct (draw_noughts_and_crosses_total size (board s) c0 Hwf)
    as (c1 & -> & _ & Hc1). simpl.
  assert (exists c2, try_draw_player_on_hovered_cell p6_map size
                       (current_player s) (board s) c1 = Some c2 /\
                     running c2 = running c1) as (c2 & -> & Hc2).
  { destruct (try_draw_player_on_hovered_cell_cases size (current_player s)
                (board s) c1 Hwf) as [(index & _ & _ & ->) | [_ ->]].
    - eexists. split; [done|].
      by destruct (draw_player_same_window (current_player s) index size c1).
    - by exists c1. }
  simpl.
  assert (exists finished text,
            game_is_finished size (board s) = Some (finished, text))
    as (finished & text & Hfin).
  { destruct (game_is_finished_cases size (board s) Hsize Hwf)
      as [(p & _ & ->) | [_ ->]]; [by eexists _, _|].
    destruct (board_is_full (board s)); by eexists _, _. }
  rewrite Hfin. simpl. eexists _, finished, text.
  split; [done|]. split; [done|]. simpl. split; [done|]. split; [done|].
  split; [done|]. destruct finished; [done | congruence].
Qed.

Lemma mouse_pressed_total size position (s : Session) :
  board_wf size (board s) ->
  exists s', mouse_pressed p6_map size position s = Some s' /\
    board_wf size (board s') /\ ctx s' = ctx s /\ cout s' = cout s.
Proof.
  intros Hwf. unfold mouse_pressed.
  destruct (try_to_play_step size (board s) (current_player s)
              (cell_hovered_by p6_map position size) Hwf)
    as (b & p & -> & Hwf' & _);
    [intros index; apply cell_hovered_by_in_range|].
  simpl. by eexists.
Qed.

Lemma start_total size events (s : Session) :
  0 < size -> board_wf size (board s) ->
  exists s', start p6_map size events s = Some s' /\
             board_wf size (board s').
Proof.
  intros Hsize. revert s.
  induction events as [|e events IH]; intros s Hwf; simpl.
  - by exists s.
  - destruct (running (ctx s)); [|by exists s].
    destruct e as [position | pointer]; simpl.
    + destruct (mouse_pressed_total size position s Hwf)
        as (s' & -> & Hwf' & _). simpl. by apply IH.
    + destruct (update_total size
                  (mkSession (board s) (current_player s)
                             (set_mouse pointer (ctx s)) (cout s))
                  Hsize Hwf)
        as (s' & finished & text & -> & _ & Hb & _). simpl.
      apply IH. simpl in Hb. by rewrite Hb.
Qed.

(** C8.  The index [cell_hovered_by] returns is in the range
    [operator[]] asserts.  On a board of size at least 1, the functions
    that index the board, [try_to_play] on a hovered cell,
    [draw_noughts_and_crosses], [try_draw_player_on_hovered_cell],
    [check_for_winner] and [game_is_finished], return without a failed
    assertion, and so does a whole session on any sequence of events. *)
Theorem board_access_always_in_range (size : Z) :
  0 < size ->
  (forall position index,
     cell_hovered_by p6_map position size = Some index ->
     0 <= x index < size /\ 0 <= y index < size) /\
  (forall board : Board, board_wf size board ->
     (forall position player,
        is_Some (try_to_play size (cell_hovered_by p6_map position size)
                             board player)) /\
     (forall c, is_Some (draw_noughts_and_crosses p6_map size board c)) /\
     (forall player c,
        is_Some (try_draw_player_on_hovered_cell p6_map size player
                                                 board c)) /\
     is_Some (check_for_winner size board) /\
     is_Some (game_is_finished size board)) /\
  (forall window events,
     is_Some (start p6_map size events
                    (mkSession (empty_board size) Crosses window
                               EmptyString))).
Proof.
  intros Hsize. split; [|split].
  - intros position index H%cell_hovered_by_in_range.
    by apply in_range_spec.
  - intros board Hwf. repeat split.
    + intros position player.
      destruct (try_to_play_step size board player
                  (cell_hovered_by p6_map position size) Hwf)
        as (b & p & -> & _); [|done].
      intros index. apply cell_hovered_by_in_range.
    + intros c.
      by destruct (draw_noughts_and_crosses_total size board c Hwf)
        as (c' & -> & _).
    + intros player c.
      by destruct (try_draw_player_on_hovered_cell_cases size player
                     board c Hwf) as [(index & _ & _ & ->) | [_ ->]].
    + by destruct (game_is_finished_cases size board Hsize Hwf)
        as [(p & -> & _) | [-> _]].
    + destruct (game_is_finished_cases size board Hsize Hwf)
        as [(p & _ & ->) | [_ ->]]; done.
  - intros window events.
    by destruct (start_total size events
                   (mkSession (empty_board size) Crosses window EmptyString)
                   Hsize (board_wf_empty size)) as (s' & -> & _).
Qed.

(** C10.  On a board where no line is filled by one player and some cell
    is empty, [game_is_finished] returns false and prints nothing; a frame
    on such a board leaves standard output as it was and does not stop
    the loop. *)
Theorem game_is_finished_silent_while_ongoing (size : Z) (b : Board) :
  0 < size -> board_wf size b ->
  (forall line, line ∈ lines size -> forall player,
     ~ line_won_by size b line player) ->
  (exists index, BoardOps.at_ size b index = Some None) ->
  game_is_finished size b = Some (false, EmptyString) /\
  forall s : Session, board s = b ->
    exists s', update p6_map size s = Some s' /\
      cout s' = cout s /\ running (ctx s') = running (ctx s).
Proof.
  intros Hsize Hwf Hlines (index & Hempty).
  assert (Hfin : game_is_finished size b = Some (false, EmptyString)).
  { destruct (game_is_finished_cases size b Hsize Hwf)
      as [(p & Hp & _) | [_ ->]].
    - exfalso. rewrite check_for_winner_first_winner in Hp by lia.
      destruct (first_winner_spec size b (lines size) Hsize Hwf
                  (lines_in_range size)) as (w & Hw & Hsome & _).
      assert (w = Some p) as -> by congruence.
      destruct (proj1 (Hsome p) eq_refl) as (i & line & Hi & Hwon & _).
      apply (Hlines line (list_elem_of_lookup_2 _ _ _ Hi) p Hwon).
    - destruct (board_is_full b) eqn:Hfull; [|done]. exfalso.
      apply (board_is_full_spec size b Hsize Hwf) in Hfull.
      destruct (Hfull index (at_in_range _ _ _ _ Hempty)) as [q Hq].
      congruence. }
  split; [done|]. intros s <-.
  destruct (update_total size s Hsize Hwf)
    as (s' & finished & text & -> & Hgame & _ & _ & Hcout & Hrun).
  rewrite Hfin in Hgame. injection Hgame as <- <-.
  exists s'. split; [done|]. by rewrite Hcout, append_empty_r.
Qed.

(** C7.  A sequence of [try_to_play] calls on the empty board of size at
    least 1 runs to its end and changes the board at most
    [size * size] times.  When it has changed it [size * size] times the
    board is full, [game_is_finished] returns true, and the next frame
    stops the loop, after which no event is handled. *)
Theorem at_most_size_squared_legal_moves (size : Z)
    (calls : list (option CellIndex)) (first : Player) :
  0 < size -> calls_in_range size calls ->
  exists b p,
    play_all size calls (empty_board size) first = Some (b, p) /\
    (legal_moves size calls (empty_board size) first
     <= Z.to_nat (size * size))%nat /\
    (legal_moves size calls (empty_board size) first
     = Z.to_nat (size * size) ->
     board_is_full b = true /\
     (exists text, game_is_finished size b = Some (true, text)) /\
     forall s : Session, board s = b ->
       exists s', update p6_map size s = Some s' /\
         running (ctx s') = false /\
         forall events, start p6_map size events s' = Some s').
Proof.
  intros Hsize Hcalls.
  destruct (play_all_occupied size calls (empty_board size) first
              (board_wf_empty size) Hcalls)
    as (b & p & Hrun & Hwf & Hcount).
  rewrite occupied_empty in Hcount. simpl in Hcount.
  pose proof (occupied_le_length b) as Hle. rewrite Hwf in Hle.
  exists b, p. split; [done|]. split; [lia|]. intros Hall.
  assert (Hfull : board_is_full b = true).
  { apply occupied_full. rewrite Hwf. lia. }
  assert (Hfin : exists text, game_is_finished size b = Some (true, text)).
  { destruct (game_is_finished_cases size b Hsize Hwf)
      as [(q & _ & ->) | [_ ->]]; [by eexists|].
    rewrite Hfull. by eexists. }
  split; [done|]. split; [done|]. intros s <-.
  destruct (update_total size s Hsize Hwf)
    as (s' & finished & text & -> & Hgame & _ & _ & _ & Hstop).
  destruct Hfin as [text' Hfin]. rewrite Hfin in Hgame.
  injection Hgame as <- <-. exists s'. split; [done|]. split; [done|].
  intros [|e events]; simpl; [done | by rewrite Hstop].
Qed.

End RenderingFacts.

Lemma drawn_game_in_range : calls_in_range 3 drawn_game.
Proof.
  unfold drawn_game.
  repeat constructor; by intros index [= <-].
Qed.

Lemma hover_preview_only_on_empty_cell_witness :
  board_wf 3 cross_in_the_middle /\
  exists c',
    try_draw_player_on_hovered_cell P6Reference.map 3 Noughts
      cross_in_the_middle P6Reference.window = Some c' /\
    c' = P6Reference.window.
Proof.
  split; [reflexivity|].
  destruct (hover_preview_only_on_empty_cell P6Reference.map 3 Noughts
              cross_in_the_middle P6Reference.window)
    as (c' & Hrun & _ & _ & Hoccupied & _); [reflexivity|].
  exists c'. split; [exact Hrun|].
  apply (Hoccupied (mkCellIndex 1 1) Crosses); reflexivity.
Defined.

Lemma board_access_always_in_range_witness :
  0 < 3 /\
  forall window events,
    is_Some (play_noughts_and_crosses P6Reference.map window events).
Proof.
  split; [lia|].
  destruct (board_access_always_in_range P6Reference.map 3) as (_ & _ & H);
    [lia|].
  exact H.
Defined.

Lemma game_is_finished_silent_while_ongoing_witness :
  0 < 3 /\ board_wf 3 (empty_board 3) /\
  game_is_finished 3 (empty_board 3) = Some (false, EmptyString).
Proof.
  split; [lia|]. split; [reflexivity|].
  destruct (game_is_finished_silent_while_ongoing P6Reference.map 3
              (empty_board 3)) as [H _].
  - lia.
  - reflexivity.
  - intros line Hin player Hwon.
    assert (Hrange : line_in_range 3 line).
    { eapply Forall_forall; [apply lines_in_range | exact Hin]. }
    specialize (Hwon 0 ltac:(lia)).
    rewrite at_empty in Hwon by (apply Hrange; lia). discriminate.
  - exists (mkCellIndex 0 0). reflexivity.
  - exact H.
Defined.

Lemma at_most_size_squared_legal_moves_witness :
  0 < 3 /\ calls_in_range 3 drawn_game /\
  exists b p,
    play_all 3 drawn_game (empty_board 3) Crosses = Some (b, p) /\
    board_is_full b = true /\
    exists text, game_is_finished 3 b = Some (true, text).
Proof.
  split; [lia|]. split; [exact drawn_game_in_range|].
  destruct (at_most_size_squared_legal_moves P6Reference.map 3 drawn_game
              Crosses) as (b & p & Hrun & _ & Hfull);
    [lia | exact drawn_game_in_range |].
  exists b, p. split; [exact Hrun|].
  destruct (Hfull eq_refl) as (Hb & Hfin & _). split; assumption.
Defined.

(** ** The model at work on a 3 by 3 board *)

Module Scenarios.

Import P6Reference.

Example crosses_win_a_row :
  (fun s => (cout s, running (ctx s), current_player s))
    <$> play_noughts_and_crosses map window crosses_win
  = Some (Crosses_have_won, false, Noughts).
Proof. vm_compute. reflexivity. Qed.

Example noughts_win_the_diagonal :
  (fun s => (cout s, running (ctx s)))
    <$> play_noughts_and_crosses map window noughts_win
  = Some (Noughts_have_won, false).
Proof. vm_compute. reflexivity. Qed.

Example drawn_game_is_a_draw :
  (b ← fst <$> play_all 3 drawn_game (empty_board 3) Crosses;
   game_is_finished 3 b)
  = Some (true, This_is_a_draw).
Proof. vm_compute. reflexivity. Qed.

(** A press outside the board, then a press on an occupied cell. *)
Example presses_ignored :
  cell_hovered_by map (Vec2 (Float32.literal 3 2) (Float32.of_int 0)) 3
  = None /\
  try_to_play 3 (cell_hovered_by map (centre 1 1) 3) cross_in_the_middle
              Noughts
  = Some (cross_in_the_middle, Noughts).
Proof. split; vm_compute; reflexivity. Qed.

(** With this instance of [p6::map], the centre of each of the nine cells
    is mapped back to the cell. *)
Example centres_hover_their_cell :
  forallb (fun '(i, j) =>
             bool_decide (cell_hovered_by map (centre i j) 3
                          = Some (mkCellIndex i j)))
          (i ← seqZ 0 3; j ← seqZ 0 3; [(i, j)])
  = true.
Proof. vm_compute. reflexivity. Qed.

(** With this instance of [p6::map], a pointer at [below_one] is mapped to
    3 in binary32, so no cell is hovered; the corner [(-1, -1)] hovers the
    cell [(0, 0)]. *)
Example rightmost_pointer_hovers_nothing :
  SFltb below_one (Float32.of_int 1) = true /\
  cell_hovered_by map (Vec2 below_one (Float32.of_int 0)) 3 = None /\
  cell_hovered_by map (vec2_splat (Float32.of_int (-1))) 3
  = Some (mkCellIndex 0 0).
Proof. repeat split; vm_compute; reflexivity. Qed.

(** A board of size 0 has no cell to look at: the win detector reads
    [board[{0, 0}]] on the diagonal and the assertion fails. *)
Example check_for_winner_size_0 : check_for_winner 0 (empty_board 0) = None.
Proof. reflexivity. Qed.

End Scenarios.

(** ** Further properties of the turn controller *)

Lemma change_player_involutive player :
  change_player (change_player player) = player.
Proof. by destruct player. Qed.

Lemma iter_change_player n player :
  Nat.iter n change_player player
  = if Nat.even n then player else change_player player.
Proof.
  induction n as [|n IH]; [done|].
  rewrite Nat.even_succ, <- Nat.negb_even. simpl. rewrite IH.
  destruct (Nat.even n); simpl; [done | apply change_player_involutive].
Qed.

(** X1.  After a sequence of [try_to_play] calls the player to move is the
    starting player when the number of calls that changed the board is
    even, and the other player when it is odd. *)
Theorem turn_alternates (size : Z) (calls : list (option CellIndex))
    (b : Board) (player : Player) :
  board_wf size b -> calls_in_range size calls ->
  exists b' player',
    play_all size calls b player = Some (b', player') /\
    player' = if Nat.even (legal_moves size calls b player)
              then player else change_player player.
Proof.
  intros Hwf Hcalls. revert b player Hwf.
  induction Hcalls as [|c calls Hc Hcalls IH]; intros b player Hwf; simpl.
  - by exists b, player.
  - destruct (try_to_play_step size b player c Hwf Hc)
      as (b1 & p1 & -> & Hwf1 & Hstep). simpl.
    destruct (IH b1 p1 Hwf1) as (b' & p' & -> & Hp'). exists b', p'.
    split; [done|]. rewrite Hp'.
    destruct Hstep as [[-> ->] | (index & -> & Hcell & -> & ->)].
    + by rewrite decide_True.
    + rewrite decide_False by (by eapply insert_changes_board).
      change (1 + ?n)%nat with (S n).
      rewrite Nat.even_succ, <- Nat.negb_even.
      destruct (Nat.even _); simpl; [done | apply change_player_involutive].
Qed.

Lemma turn_alternates_witness :
  board_wf 3 (empty_board 3) /\ calls_in_range 3 four_presses /\
  exists b' player',
    play_all 3 four_presses (empty_board 3) Crosses = Some (b', player') /\
    player' = Crosses.
Proof.
  split; [reflexivity|]. split; [exact four_presses_in_range|].
  destruct (turn_alternates 3 four_presses (empty_board 3) Crosses)
    as (b' & p' & Hrun & Hp'); [reflexivity | exact four_presses_in_range |].
  exists b', p'. split; [exact Hrun | exact Hp'].
Defined.

Lemma count_player_insert (b : Board) i player q :
  b !! i = Some None ->
  count_player q (<[i := Some player]> b)
  = (count_player q b + if decide (q = player) then 1 else 0)%nat.
Proof.
  unfold count_player. revert i. induction b as [|cell b IH]; intros i Hi.
  - done.
  - destruct i as [|i]; simpl in *.
    + injection Hi as ->. rewrite !filter_cons.
      rewrite (decide_False (P := None = Some q)) by done.
      destruct (decide (q = player)) as [-> | Hne].
      * rewrite decide_True by done. simpl. lia.
      * rewrite decide_False by congruence. lia.
    + rewrite !filter_cons. destruct (decide (cell = Some q)); simpl;
        rewrite IH by done; lia.
Qed.

Lemma count_player_empty size player :
  count_player player (empty_board size) = 0%nat.
Proof.
  unfold count_player, empty_board.
  induction (Z.to_nat (size * size)) as [|n IH]; [done|].
  simpl. rewrite filter_cons. by rewrite decide_False.
Qed.

Lemma try_to_play_balanced size first (b : Board) player c :
  board_wf size b ->
  (forall index, c = Some index -> BoardOps.in_range size index = true) ->
  balanced first b player ->
  exists b' player',
    try_to_play size c b player = Some (b', player') /\
    board_wf size b' /\ balanced first b' player'.
Proof.
  intros Hwf Hc Hbal.
  destruct (try_to_play_step size b player c Hwf Hc)
    as (b' & p' & Hrun & Hwf' & Hstep).
  exists b', p'. split; [done|]. split; [done|].
  destruct Hstep as [[-> ->] | (index & -> & Hcell & -> & ->)]; [done|].
  unfold balanced in *.
  rewrite at_lookup in Hcell by (by eapply at_in_range).
  rewrite !count_player_insert by done.
  destruct first, player; simpl in *; lia.
Qed.

Lemma play_all_balanced size first calls (b : Board) player :
  board_wf size b -> calls_in_range size calls -> balanced first b player ->
  exists b' player',
    play_all size calls b player = Some (b', player') /\
    board_wf size b' /\ balanced first b' player'.
Proof.
  intros Hwf Hcalls. revert b player Hwf.
  induction Hcalls as [|c calls Hc Hcalls IH]; intros b player Hwf Hbal; simpl.
  - by exists b, player.
  - destruct (try_to_play_balanced size first b player c Hwf Hc Hbal)
      as (b1 & p1 & -> & Hwf1 & Hbal1). simpl. by apply IH.
Qed.

(** X2.  On a board filled by [try_to_play] calls from the empty board,
    the player who started holds as many cells as the other player when it
    is the starter's turn, and one more when it is the other player's
    turn. *)
Theorem starter_leads_by_at_most_one (size : Z)
    (calls : list (option CellIndex)) (first : Player) :
  calls_in_range size calls ->
  exists b player,
    play_all size calls (empty_board size) first = Some (b, player) /\
    count_player first b
    = (count_player (change_player first) b
       + if decide (player = first) then 0 else 1)%nat.
Proof.
  intros Hcalls.
  destruct (play_all_balanced size first calls (empty_board size) first
              (board_wf_empty size) Hcalls) as (b & p & Hrun & _ & Hbal).
  - unfold balanced. rewrite !count_player_empty.
    by rewrite decide_True.
  - by exists b, p.
Qed.

Lemma starter_leads_by_at_most_one_witness :
  calls_in_range 3 drawn_game /\
  exists b player,
    play_all 3 drawn_game (empty_board 3) Crosses = Some (b, player) /\
    count_player Crosses b = 5%nat /\ count_player Noughts b = 4%nat.
Proof.
  split; [exact drawn_game_in_range|].
  destruct (starter_leads_by_at_most_one 3 drawn_game Crosses
              drawn_game_in_range) as (b & p & Hrun & Hcount).
  exists b, p. split; [exact Hrun|].
  vm_compute in Hrun. injection Hrun as <- <-. split; reflexivity.
Defined.

(** X3.  A second [try_to_play] on the cell just tried changes nothing,
    whoever is to move: the cell is occupied after the first call. *)
Theorem second_try_is_ignored (size : Z) (b : Board) (player : Player)
    (index : CellIndex) :
  board_wf size b -> BoardOps.in_range size index = true ->
  exists b' player',
    try_to_play size (Some index) b player = Some (b', player') /\
    (exists occupant, BoardOps.at_ size b' index = Some (Some occupant)) /\
    forall q, try_to_play size (Some index) b' q = Some (b', q).
Proof.
  intros Hwf Hin.
  destruct (at_is_Some size b index Hwf Hin) as [[occupant|] Hcell].
  - exists b, player. rewrite (try_to_play_occupied _ _ _ _ _ Hcell).
    split; [done|]. split; [by exists occupant|].
    intros q. by eapply try_to_play_occupied.
  - eexists _, _. rewrite (try_to_play_empty _ _ _ _ Hwf Hcell).
    split; [done|].
    pose proof (at_insert_eq size b index (Some player) Hwf Hin) as Hset.
    split; [by exists player|].
    intros q. by eapply try_to_play_occupied.
Qed.

Lemma second_try_is_ignored_witness :
  board_wf 3 (empty_board 3) /\
  BoardOps.in_range 3 (mkCellIndex 2 1) = true /\
  exists b' player',
    try_to_play 3 (Some (mkCellIndex 2 1)) (empty_board 3) Crosses
    = Some (b', player') /\
    try_to_play 3 (Some (mkCellIndex 2 1)) b' player' = Some (b', player').
Proof.
  split; [reflexivity|]. split; [reflexivity|].
  destruct (second_try_is_ignored 3 (empty_board 3) Crosses (mkCellIndex 2 1))
    as (b' & p' & Hrun & _ & Hagain); [reflexivity | reflexivity |].
  exists b', p'. split; [exact Hrun | apply Hagain].
Defined.

(** ** Further properties of the win detector *)

(** X5.  On a line whose indices are in range, [check_for_winner_on_line]
    returns without failing; it returns a player exactly when all the cells
    of the line hold that player, and nothing when the first cell of the
    line is empty or two neighbouring cells differ. *)
Theorem check_for_winner_on_line_correct (size : Z) (b : Board)
    (line : Z -> CellIndex) :
  0 < size -> board_wf size b -> line_in_range size line ->
  exists winner,
    check_for_winner_on_line size b line = Some winner /\
    (forall player, winner = Some player <-> line_won_by size b line player) /\
    (BoardOps.at_ size b (line 0) = Some None -> winner = None) /\
    (forall k, 0 <= k < size - 1 ->
       BoardOps.at_ size b (line k) <> BoardOps.at_ size b (line (k + 1)) ->
       winner = None).
Proof.
  intros Hsize Hwf Hline.
  destruct (check_for_winner_on_line_spec size b line Hsize Hwf Hline)
    as (winner & Hrun & Hiff).
  exists winner. split; [done|]. split; [done|]. split.
  - intros Hfirst. destruct winner as [p|]; [|done].
    pose proof (proj1 (Hiff p) eq_refl 0 ltac:(lia)). congruence.
  - intros k Hk Hne. destruct winner as [p|]; [|done]. exfalso. apply Hne.
    pose proof (proj1 (Hiff p) eq_refl) as Hwon.
    rewrite !Hwon by lia. done.
Qed.

Lemma check_for_winner_on_line_correct_witness :
  0 < 3 /\ board_wf 3 two_columns /\ line_in_range 3 (column 1) /\
  exists winner,
    check_for_winner_on_line 3 two_columns (column 1) = Some winner /\
    (winner = Some Crosses <-> line_won_by 3 two_columns (column 1) Crosses).
Proof.
  split; [lia|]. split; [reflexivity|].
  assert (Hline : line_in_range 3 (column 1)).
  { intros k Hk. apply in_range_spec. simpl. lia. }
  split; [exact Hline|].
  destruct (check_for_winner_on_line_correct 3 two_columns (column 1))
    as (winner & Hrun & Hiff & _); [lia | reflexivity | exact Hline |].
  exists winner. split; [exact Hrun | apply Hiff].
Defined.

Lemma Forall_is_Some_occupied (b : Board) :
  Forall is_Some b -> occupied b = length b.
Proof.
  unfold occupied. induction 1 as [|cell b Hcell Hb IH]; [done|].
  rewrite filter_cons, decide_True by done. simpl. by rewrite IH.
Qed.

(** X6.  On a board of size at least 1, [board_is_full] is true exactly
    when every index in range holds a player, which is exactly when the
    number of occupied cells is the number of cells. *)
Theorem board_is_full_correct (size : Z) (b : Board) :
  0 < size -> board_wf size b ->
  (board_is_full b = true <-> all_cells_occupied size b) /\
  (board_is_full b = true <-> occupied b = Z.to_nat (size * size)).
Proof.
  intros Hsize Hwf. split; [by apply board_is_full_spec|].
  rewrite <- Hwf. split.
  - intros Hfull%board_is_full_Forall. by apply Forall_is_Some_occupied.
  - apply occupied_full.
Qed.

Lemma board_is_full_correct_witness :
  0 < 3 /\ board_wf 3 two_columns /\
  (board_is_full two_columns = true <-> occupied two_columns = 9%nat).
Proof.
  split; [lia|]. split; [reflexivity|].
  destruct (board_is_full_correct 3 two_columns) as [_ H];
    [lia | reflexivity |].
  exact H.
Defined.

Lemma line_won_by_empty size line player :
  0 < size -> ~ line_won_by size (empty_board size) line player.
Proof.
  intros Hsize Hwon. specialize (Hwon 0 ltac:(lia)).
  pose proof (at_in_range _ _ _ _ Hwon) as Hin.
  rewrite at_empty in Hwon by done. done.
Qed.

(** X9.  On the freshly constructed board of a game of size at least 1
    there is no winner, the board is not full, and [game_is_finished]
    returns false without printing. *)
Theorem fresh_game_is_not_finished (size : Z) :
  0 < size ->
  check_for_winner size (empty_board size) = Some None /\
  board_is_full (empty_board size) = false /\
  game_is_finished size (empty_board size) = Some (false, EmptyString).
Proof.
  intros Hsize.
  assert (Hnone : check_for_winner size (empty_board size) = Some None).
  { rewrite check_for_winner_first_winner by lia.
    destruct (first_winner_spec size (empty_board size) (lines size) Hsize
                (board_wf_empty size) (lines_in_range size))
      as (w & -> & _ & Hnone).
    f_equal. apply Hnone. intros line _ player.
    by apply line_won_by_empty. }
  assert (Hfull : board_is_full (empty_board size) = false).
  { unfold empty_board.
    destruct (Z.to_nat (size * size)) as [|n] eqn:Hn; [lia | done]. }
  split; [done|]. split; [done|].
  unfold game_is_finished. rewrite Hnone. simpl. by rewrite Hfull.
Qed.

Lemma fresh_game_is_not_finished_witness :
  0 < 3 /\ game_is_finished 3 (empty_board 3) = Some (false, EmptyString).
Proof.
  split; [lia|].
  destruct (fresh_game_is_not_finished 3) as (_ & _ & H); [lia|]. exact H.
Defined.

Lemma game_is_finished_true size (b : Board) :
  0 < size -> board_wf size b ->
  (exists text, game_is_finished size b = Some (true, text)) <->
  game_over size b.
Proof.
  intros Hsize Hwf. unfold game_over, game_is_finished.
  rewrite check_for_winner_first_winner by lia.
  destruct (first_winner_spec size b (lines size) Hsize Hwf
              (lines_in_range size)) as (w & -> & Hsome & Hnone).
  simpl. rewrite <- (board_is_full_spec size b Hsize Hwf).
  destruct w as [p|].
  - split.
    + intros _. left.
      destruct (proj1 (Hsome p) eq_refl) as (i & line & Hi & Hwon & _).
      exists line, p. split; [by eapply list_elem_of_lookup_2 | done].
    + intros _. destruct p; by eexists.
  - destruct (board_is_full b); split.
    + intros _. by right.
    + intros _. by eexists.
    + by intros [text [=]].
    + intros [(line & p & Hin & Hwon) | ?]; [|done]. exfalso.
      by apply (proj1 Hnone eq_refl line Hin p).
Qed.

Lemma play_all_keeps_cells size calls (b : Board) player :
  board_wf size b -> calls_in_range size calls ->
  exists b' player',
    play_all size calls b player = Some (b', player') /\
    board_wf size b' /\
    forall index occupant,
      BoardOps.at_ size b index = Some (Some occupant) ->
      BoardOps.at_ size b' index = Some (Some occupant).
Proof.
  intros Hwf Hcalls. revert b player Hwf.
  induction Hcalls as [|c calls Hc Hcalls IH]; intros b player Hwf; simpl.
  - by exists b, player.
  - destruct (try_to_play_step size b player c Hwf Hc)
      as (b1 & p1 & -> & Hwf1 & Hstep). simpl.
    destruct (IH b1 p1 Hwf1) as (b' & p' & -> & Hwf' & Hkeep).
    exists b', p'. split; [done|]. split; [done|].
    intros index occupant Hcell. apply Hkeep.
    destruct Hstep as [[-> _] | (written & -> & Hempty & -> & _)]; [done|].
    rewrite at_insert_ne; [done | by eapply at_in_range | congruence].
Qed.

(** X4.  Once [game_is_finished] returns true on a board, it returns true
    on every board that further [try_to_play] calls lead to; and a board
    with a winner keeps having a winner. *)
Theorem finished_game_stays_finished (size : Z)
    (calls : list (option CellIndex)) (b : Board) (player : Player) :
  0 < size -> board_wf size b -> calls_in_range size calls ->
  exists b' player',
    play_all size calls b player = Some (b', player') /\
    ((exists text, game_is_finished size b = Some (true, text)) ->
     exists text', game_is_finished size b' = Some (true, text')) /\
    ((exists winner, check_for_winner size b = Some (Some winner)) ->
     exists winner', check_for_winner size b' = Some (Some winner')).
Proof.
  intros Hsize Hwf Hcalls.
  destruct (play_all_keeps_cells size calls b player Hwf Hcalls)
    as (b' & p' & Hrun & Hwf' & Hkeep).
  exists b', p'. split; [done|]. split.
  - rewrite !game_is_finished_true by done.
    intros [(line & p & Hin & Hwon) | Hfull].
    + left. exists line, p. split; [done|]. intros k Hk. by apply Hkeep, Hwon.
    + right. intros index Hin. destruct (Hfull index Hin) as [p Hp].
      exists p. by apply Hkeep.
  - rewrite !check_for_winner_first_winner by lia.
    destruct (first_winner_spec size b (lines size) Hsize Hwf
                (lines_in_range size)) as (w & -> & Hsome & _).
    destruct (first_winner_spec size b' (lines size) Hsize Hwf'
                (lines_in_range size)) as (w' & -> & _ & Hnone').
    intros [winner [= ->]].
    destruct (proj1 (Hsome winner) eq_refl) as (i & line & Hi & Hwon & _).
    destruct w' as [p|]; [by exists p|]. exfalso.
    apply (proj1 Hnone' eq_refl line (list_elem_of_lookup_2 _ _ _ Hi) winner).
    intros k Hk. by apply Hkeep, Hwon.
Qed.

Lemma finished_game_stays_finished_witness :
  0 < 3 /\ board_wf 3 two_columns /\ calls_in_range 3 four_presses /\
  exists b' player',
    play_all 3 four_presses two_columns Crosses = Some (b', player') /\
    exists text', game_is_finished 3 b' = Some (true, text').
Proof.
  split; [lia|]. split; [reflexivity|]. split; [exact four_presses_in_range|].
  destruct (finished_game_stays_finished 3 four_presses two_columns Crosses)
    as (b' & p' & Hrun & Hfin & _);
    [lia | reflexivity | exact four_presses_in_range |].
  exists b', p'. split; [exact Hrun|]. apply Hfin.
  exists Noughts_have_won. reflexivity.
Defined.

(** ** Further properties of drawing and of the session *)

Lemma foldl_inner_indices {S : Type} (f : CellIndex -> S -> S) (i : Z) ys s :
  foldl (fun s j => f (mkCellIndex i j) s) s ys
  = foldl (fun s index => f index s) s (j ← ys; [mkCellIndex i j]).
Proof.
  revert s. induction ys as [|j ys IH]; intros s; [done|]. simpl. apply IH.
Qed.

Lemma foldl_nested_indices {S : Type} (f : CellIndex -> S -> S) xs ys s :
  foldl (fun s i => foldl (fun s j => f (mkCellIndex i j) s) s ys) s xs
  = foldl (fun s index => f index s) s
          (i ← xs; j ← ys; [mkCellIndex i j]).
Proof.
  revert s. induction xs as [|i xs IH]; intros s; [done|].
  simpl. rewrite foldl_app, <- foldl_inner_indices. apply IH.
Qed.

Lemma for_each_board_indices {S : Type} (f : CellIndex -> S -> S) size s :
  for_each size (fun i => for_each size (fun j => f (mkCellIndex i j))) s
  = foldl (fun s index => f index s) s (board_indices size).
Proof. unfold for_each, board_indices. apply foldl_nested_indices. Qed.

Lemma board_indices_in_range size index :
  index ∈ board_indices size -> BoardOps.in_range size index = true.
Proof.
  unfold board_indices.
  intros (i & Hindex & Hi%elem_of_seqZ)%list_elem_of_bind.
  apply list_elem_of_bind in Hindex as (j & Hindex & Hj%elem_of_seqZ).
  apply list_elem_of_singleton in Hindex as ->.
  apply in_range_spec. simpl. lia.
Qed.

Lemma length_bind_indices (xs ys : list Z) :
  length (i ← xs; j ← ys; [mkCellIndex i j])
  = (length xs * length ys)%nat.
Proof.
  induction xs as [|i xs IH]; [done|].
  rewrite bind_cons, length_app, IH. simpl. f_equal.
  clear. induction ys as [|j ys IH]; [done|].
  rewrite bind_cons. simpl. by rewrite IH.
Qed.

Lemma length_board_indices size :
  length (board_indices size) = (Z.to_nat size * Z.to_nat size)%nat.
Proof.
  unfold board_indices. by rewrite length_bind_indices, length_seqZ.
Qed.

Section RenderingMore.

Variable p6_map : vec2 -> vec2 -> vec2 -> vec2 -> vec2 -> vec2.

Lemma draw_cells_fold size indices c :
  let c' := foldl (fun c index => draw_cell p6_map index size c) c indices in
  drawn c'
  = drawn c ++ ((fun index =>
                   Square (cell_bottom_left_corner p6_map index size)
                          (cell_radius size)) <$> indices) /\
  stroke c' = stroke c /\ fill c' = fill c /\
  stroke_weight c' = stroke_weight c /\ same_window c c'.
Proof.
  revert c. induction indices as [|index indices IH]; intros c; simpl.
  - by rewrite app_nil_r.
  - destruct (IH (draw_cell p6_map index size c))
      as (Hdrawn & Hstroke & Hfill & Hweight & Hmouse & Hrun).
    rewrite Hdrawn, Hstroke, Hfill, Hweight. simpl.
    rewrite <- app_assoc. repeat split; [done|]. by rewrite Hrun.
Qed.

(** X7.  [draw_board] adds one square per cell, [size * size] squares for
    a non-negative [size], column by column from the bottom-left cell, each
    at the bottom-left corner of its cell with the cell radius; it leaves
    the earlier shapes, the stroke, the fill and the stroke weight as they
    were. *)
Theorem draw_board_draws_every_cell (size : Z) (c : Context) :
  drawn (draw_board p6_map size c)
  = drawn c ++ ((fun index =>
                   Square (cell_bottom_left_corner p6_map index size)
                          (cell_radius size)) <$> board_indices size) /\
  length (drawn (draw_board p6_map size c))
  = (length (drawn c) + Z.to_nat size * Z.to_nat size)%nat /\
  stroke (draw_board p6_map size c) = stroke c /\
  fill (draw_board p6_map size c) = fill c /\
  stroke_weight (draw_board p6_map size c) = stroke_weight c.
Proof.
  unfold draw_board.
  rewrite (for_each_board_indices (fun index => draw_cell p6_map index size)).
  destruct (draw_cells_fold size (board_indices size) c)
    as (Hdrawn & Hstroke & Hfill & Hweight & _).
  split; [done|]. split; [|done].
  by rewrite Hdrawn, length_app, length_fmap, length_board_indices.
Qed.

Lemma draw_player_shapes player index size c :
  drawn (draw_player p6_map player index size c)
  = drawn c ++ player_shapes p6_map size player index.
Proof.
  unfold player_shapes. destruct player; simpl; [done|].
  by rewrite <- app_assoc.
Qed.

Lemma draw_marks_fold size (b : Board) indices c :
  board_wf size b ->
  (forall index, index ∈ indices -> BoardOps.in_range size index = true) ->
  exists c',
    foldl (fun o index =>
             ctx ← o;
             cell ← BoardOps.at_ size b index;
             match cell with
             | Some player => Some (draw_player p6_map player index size ctx)
             | None => Some ctx
             end) (Some c) indices = Some c' /\
    drawn c' = drawn c ++ (index ← indices; cell_shapes p6_map size b index) /\
    ((forall index, index ∈ indices ->
        BoardOps.at_ size b index = Some None) -> c' = c).
Proof.
  intros Hwf. revert c.
  induction indices as [|index indices IH]; intros c Hin.
  - exists c. simpl. by rewrite app_nil_r.
  - destruct (at_is_Some size b index Hwf) as [cell Hcell];
      [apply Hin; by left|].
    rewrite bind_cons. unfold cell_shapes at 1. simpl. rewrite Hcell. simpl.
    destruct cell as [player|].
    + destruct (IH (draw_player p6_map player index size c))
        as (c' & -> & Hdrawn & _);
        [intros i Hi; apply Hin; by right|].
      exists c'. split; [done|]. split.
      * by rewrite Hdrawn, draw_player_shapes, <- app_assoc.
      * intros Hempty. specialize (Hempty index (list_elem_of_here _ _)).
        congruence.
    + destruct (IH c) as (c' & -> & Hdrawn & Hsame);
        [intros i Hi; apply Hin; by right|].
      exists c'. split; [done|]. split; [done|].
      intros Hempty. apply Hsame. intros i Hi. apply Hempty. by right.
Qed.

(** X8.  [draw_noughts_and_crosses] returns without failing and adds, cell
    after cell in the order of [draw_board], the shapes of the player on
    each occupied cell and nothing for an empty cell; on a board with no
    occupied cell it returns the context as it was. *)
Theorem draw_noughts_and_crosses_draws_the_marks (size : Z) (b : Board)
    (c : Context) :
  board_wf size b ->
  exists c',
    draw_noughts_and_crosses p6_map size b c = Some c' /\
    drawn c'
    = drawn c ++ (index ← board_indices size; cell_shapes p6_map size b index)
    /\
    ((forall index, BoardOps.in_range size index = true ->
        BoardOps.at_ size b index = Some None) -> c' = c).
Proof.
  intros Hwf. unfold draw_noughts_and_crosses.
  rewrite (for_each_board_indices
             (fun index o =>
                ctx ← o;
                cell ← BoardOps.at_ size b index;
                match cell with
                | Some player =>
                    Some (draw_player p6_map player index size ctx)
                | None => Some ctx
                end)).
  destruct (draw_marks_fold size b (board_indices size) c Hwf
              (board_indices_in_range size)) as (c' & Hrun & Hdrawn & Hsame).
  exists c'. split; [done|]. split; [done|].
  intros Hempty. apply Hsame. intros index Hin.
  by apply Hempty, board_indices_in_range.
Qed.

End RenderingMore.

Lemma draw_noughts_and_crosses_draws_the_marks_witness :
  board_wf 3 cross_in_the_middle /\
  exists c',
    draw_noughts_and_crosses P6Reference.map 3 cross_in_the_middle
                             P6Reference.window = Some c' /\
    drawn c'
    = player_shapes P6Reference.map 3 Crosses (mkCellIndex 1 1).
Proof.
  split; [reflexivity|].
  destruct (draw_noughts_and_crosses_draws_the_marks P6Reference.map 3
              cross_in_the_middle P6Reference.window)
    as (c' & Hrun & Hdrawn & _); [reflexivity|].
  exists c'. split; [exact Hrun|]. rewrite Hdrawn. reflexivity.
Defined.

Lemma game_is_finished_text size (b : Board) finished text :
  0 < size -> board_wf size b ->
  game_is_finished size b = Some (finished, text) ->
  (finished = false /\ text = EmptyString) \/
  (finished = true /\
   (text = Noughts_have_won \/ text = Crosses_have_won \/
    text = This_is_a_draw)).
Proof.
  intros Hsize Hwf Hrun.
  destruct (game_is_finished_cases size b Hsize Hwf)
    as [(p & _ & Hfin) | [_ Hfin]]; rewrite Hfin in Hrun.
  - injection Hrun as <- <-. right. split; [done|]. destruct p; auto.
  - destruct (board_is_full b); injection Hrun as <- <-; auto.
Qed.

Lemma presses_cons_press position events :
  presses (Press position :: events) = S (presses events).
Proof. unfold presses. by rewrite filter_cons, decide_True. Qed.

Lemma presses_cons_frame pointer events :
  presses (Frame pointer :: events) = presses events.
Proof. unfold presses. by rewrite filter_cons, decide_False. Qed.

Section SessionFacts.

Variable p6_map : vec2 -> vec2 -> vec2 -> vec2 -> vec2 -> vec2.

Lemma start_invariant size events (s : Session) :
  0 < size -> session_ok size s ->
  exists s', start p6_map size events s = Some s' /\
    session_ok size s' /\
    (occupied (board s') <= occupied (board s) + presses events)%nat.
Proof.
  intros Hsize. revert s.
  induction events as [|e events IH]; intros s Hok; simpl.
  - exists s. split; [done|]. split; [done | lia].
  - destruct (running (ctx s)) eqn:Hrunning;
      [|exists s; split; [done|]; split; [done | lia]].
    destruct Hok as (Hwf & Hbal & Hout).
    assert (Hcout : cout s = EmptyString).
    { destruct Hout as [? | [? _]]; [done | congruence]. }
    destruct e as [position | pointer]; simpl.
    + unfold mouse_pressed.
      assert (Hc : forall index,
                cell_hovered_by p6_map position size = Some index ->
                BoardOps.in_range size index = true)
        by (intros index; apply cell_hovered_by_in_range).
      destruct (try_to_play_step size (board s) (current_player s) _ Hwf Hc)
        as (b1 & p1 & Hrun & Hwf1 & Hstep).
      destruct (try_to_play_balanced size Crosses (board s) (current_player s)
                  _ Hwf Hc Hbal) as (b2 & p2 & Hrun2 & _ & Hbal2).
      rewrite Hrun in Hrun2. injection Hrun2 as <- <-.
      rewrite Hrun. simpl.
      destruct (IH (mkSession b1 p1 (ctx s) (cout s)))
        as (s' & -> & Hok' & Hle).
      { split; [done|]. split; [done|]. by left. }
      exists s'. split; [done|]. split; [done|].
      rewrite presses_cons_press. simpl in Hle.
      destruct Hstep as [[-> _] | (index & _ & Hcell & -> & _)]; [lia|].
      rewrite occupied_insert in Hle;
        [lia | by rewrite <- at_lookup by (by eapply at_in_range)].
    + destruct (update_total p6_map size
                  (mkSession (board s) (current_player s)
                             (set_mouse pointer (ctx s)) (cout s))
                  Hsize Hwf)
        as (s1 & finished & text & -> & Hgame & Hb & Hp & Hc & Hstop).
      simpl in *.
      destruct (IH s1) as (s' & -> & Hok' & Hle).
      { split; [by rewrite Hb|]. split; [by rewrite Hb, Hp|].
        rewrite Hc, Hcout, Hb. simpl.
        destruct (game_is_finished_text size (board s) finished text
                    Hsize Hwf Hgame) as [[-> ->] | [-> _]]; [by left|].
        right. by rewrite Hstop. }
      exists s'. split; [done|]. split; [done|].
      rewrite presses_cons_frame. by rewrite Hb in Hle.
Qed.

(** X10.  A session of [play_noughts_and_crosses] runs without a failed
    assertion on every sequence of events and prints at most one line.
    When it has printed, the loop is stopped and the text is one of the
    three outcome lines, the one [game_is_finished] gives for the board the
    session ends with. *)
Theorem session_prints_the_outcome_once (window : Context)
    (events : list Event) :
  exists s,
    play_noughts_and_crosses p6_map window events = Some s /\
    (cout s = EmptyString \/
     (running (ctx s) = false /\
      game_is_finished 3 (board s) = Some (true, cout s) /\
      (cout s = Noughts_have_won \/ cout s = Crosses_have_won \/
       cout s = This_is_a_draw))).
Proof.
  unfold play_noughts_and_crosses, board_size.
  destruct (start_invariant 3 events
              (mkSession (empty_board 3) Crosses window EmptyString))
    as (s & Hrun & (Hwf & _ & Hout) & _); [lia | |].
  { split; [apply board_wf_empty|]. split; [|by left].
    unfold balanced. cbn [board current_player].
    by rewrite !count_player_empty. }
  exists s. split; [done|].
  destruct Hout as [? | [Hstop Hgame]]; [by left|]. right.
  split; [done|]. split; [done|].
  by destruct (game_is_finished_text 3 (board s) true (cout s)
                 ltac:(lia) Hwf Hgame) as [[? _] | [_ ?]].
Qed.

(** X11.  At the end of a session of [play_noughts_and_crosses] the board
    has nine cells, crosses hold as many cells as noughts when crosses are
    to move and one more when noughts are to move, and the number of
    occupied cells is at most the number of pointer presses. *)
Theorem session_board_invariants (window : Context) (events : list Event) :
  exists s,
    play_noughts_and_crosses p6_map window events = Some s /\
    length (board s) = 9%nat /\
    count_player Crosses (board s)
    = (count_player Noughts (board s)
       + match current_player s with Crosses => 0 | Noughts => 1 end)%nat /\
    (occupied (board s) <= presses events)%nat.
Proof.
  unfold play_noughts_and_crosses, board_size.
  destruct (start_invariant 3 events
              (mkSession (empty_board 3) Crosses window EmptyString))
    as (s & Hrun & (Hwf & Hbal & _) & Hle); [lia | |].
  { split; [apply board_wf_empty|]. split; [|by left].
    unfold balanced. cbn [board current_player].
    by rewrite !count_player_empty. }
  exists s. split; [done|]. split; [exact Hwf|]. split.
  - unfold balanced in Hbal. simpl in Hbal. rewrite Hbal.
    by destruct (current_player s).
  - cbn [board] in Hle. by rewrite occupied_empty in Hle.
Qed.

End SessionFacts.

(** ** How many cells a winner holds *)

Lemma count_positions (pre b : Board) (cell : option Player) :
  length (filter (fun i => (pre ++ b) !! i = Some cell)
                 (seq (length pre) (length b)))
  = length (filter (fun c => c = cell) b).
Proof.
  revert pre. induction b as [|c b IH]; intros pre; [done|].
  simpl. rewrite !filter_cons.
  rewrite (list_lookup_middle pre b c (length pre) eq_refl).
  specialize (IH (pre ++ [c])).
  rewrite length_app, <- app_assoc in IH. simpl in IH.
  rewrite Nat.add_1_r in IH.
  destruct (decide (Some c = Some cell)) as [[= ->] | Hne].
  - rewrite decide_True by done. simpl. by rewrite IH.
  - rewrite decide_False by congruence. done.
Qed.

Lemma positions_le_count (b : Board) player (positions : list nat) :
  NoDup positions ->
  (forall i, i ∈ positions -> b !! i = Some (Some player)) ->
  (length positions <= count_player player b)%nat.
Proof.
  intros Hnodup Hall. unfold count_player.
  rewrite <- (count_positions [] b (Some player)). simpl.
  apply submseteq_length, NoDup_submseteq; [done|].
  intros i Hi. apply list_elem_of_filter. split; [by apply Hall|].
  apply elem_of_seq. pose proof (lookup_lt_Some _ _ _ (Hall i Hi)). lia.
Qed.

Lemma lines_injective size line k k' :
  line ∈ lines size -> line k = line k' -> k = k'.
Proof.
  unfold lines. rewrite !elem_of_app, !list_elem_of_fmap, !elem_of_cons.
  intros [(i & -> & _) | [(i & -> & _) | [-> | [-> | Hnil]]]];
    [| | | | by apply elem_of_nil in Hnil];
    unfold column, row, diagonal, anti_diagonal; by intros [=].
Qed.

Lemma occupied_counts (b : Board) :
  occupied b = (count_player Noughts b + count_player Crosses b)%nat.
Proof.
  unfold occupied, count_player. induction b as [|cell b IH]; [done|].
  rewrite !filter_cons. destruct cell as [[|]|].
  - rewrite decide_True by done. rewrite decide_True by done.
    rewrite decide_False by done. simpl. lia.
  - rewrite decide_True by done. rewrite decide_False by done.
    rewrite decide_True by done. simpl. lia.
  - rewrite decide_False by (by intros [? ?]).
    rewrite decide_False by done. rewrite decide_False by done. done.
Qed.

Lemma line_won_by_count size (b : Board) line player :
  0 < size -> line ∈ lines size -> line_won_by size b line player ->
  (Z.to_nat size <= count_player player b)%nat.
Proof.
  intros Hsize Hin Hwon.
  assert (Hrange : line_in_range size line).
  { eapply Forall_forall; [apply lines_in_range | exact Hin]. }
  rewrite <- (length_seqZ 0 size).
  rewrite <- (length_fmap (fun k => BoardOps.offset size (line k))).
  apply positions_le_count.
  - apply NoDup_fmap_2_strong; [|apply NoDup_seqZ].
    intros k k' Hk%elem_of_seqZ Hk'%elem_of_seqZ Heq.
    apply (lines_injective size line); [done|].
    apply (offset_inj size); [apply Hrange; lia.. | done].
  - intros i (k & -> & Hk%elem_of_seqZ)%list_elem_of_fmap.
    rewrite <- at_lookup by (apply Hrange; lia). apply Hwon. lia.
Qed.

(** X12.  The player [check_for_winner] returns holds at least
    [board_size] cells of the board. *)
Theorem winner_holds_a_full_line (size : Z) (b : Board) (player : Player) :
  0 < size -> board_wf size b ->
  check_for_winner size b = Some (Some player) ->
  (Z.to_nat size <= count_player player b)%nat.
Proof.
  intros Hsize Hwf Hwin. rewrite check_for_winner_first_winner in Hwin by lia.
  destruct (first_winner_spec size b (lines size) Hsize Hwf
              (lines_in_range size)) as (w & Hrun & Hsome & _).
  assert (w = Some player) as -> by congruence.
  destruct (proj1 (Hsome player) eq_refl) as (i & line & Hi & Hwon & _).
  apply (line_won_by_count size b line); [done | | done].
  by eapply list_elem_of_lookup_2.
Qed.

Lemma winner_holds_a_full_line_witness :
  0 < 3 /\ board_wf 3 two_columns /\
  check_for_winner 3 two_columns = Some (Some Noughts) /\
  (3 <= count_player Noughts two_columns)%nat.
Proof.
  split; [lia|]. split; [reflexivity|]. split; [reflexivity|].
  apply (winner_holds_a_full_line 3 two_columns Noughts);
    [lia | reflexivity | reflexivity].
Defined.

(** X13.  A game played from the empty board has no winner before its
    [2 * board_size - 1]-th legal move: when [check_for_winner] returns a
    player after a sequence of [try_to_play] calls, at least
    [2 * board_size - 1] of the calls changed the board. *)
Theorem no_winner_before_enough_moves (size : Z)
    (calls : list (option CellIndex)) (first : Player) :
  0 < size -> calls_in_range size calls ->
  exists b player,
    play_all size calls (empty_board size) first = Some (b, player) /\
    forall winner, check_for_winner size b = Some (Some winner) ->
      (2 * Z.to_nat size - 1
       <= legal_moves size calls (empty_board size) first)%nat.
Proof.
  intros Hsize Hcalls.
  destruct (play_all_occupied size calls (empty_board size) first
              (board_wf_empty size) Hcalls) as (b & p & Hrun & Hwf & Hcount).
  destruct (play_all_balanced size first calls (empty_board size) first
              (board_wf_empty size) Hcalls) as (b2 & p2 & Hrun2 & _ & Hbal).
  { unfold balanced. rewrite !count_player_empty. by rewrite decide_True. }
  rewrite Hrun in Hrun2. injection Hrun2 as <- <-.
  exists b, p. split; [done|]. intros winner Hwin.
  rewrite check_for_winner_first_winner in Hwin by lia.
  destruct (first_winner_spec size b (lines size) Hsize Hwf
              (lines_in_range size)) as (w & Hw & Hsome & _).
  assert (w = Some winner) as -> by congruence.
  destruct (proj1 (Hsome winner) eq_refl) as (i & line & Hi & Hwon & _).
  pose proof (line_won_by_count size b line winner Hsize
                (list_elem_of_lookup_2 _ _ _ Hi) Hwon) as Hn.
  rewrite occupied_empty, occupied_counts in Hcount.
  unfold balanced in Hbal.
  destruct first, winner, (decide (p = _)); simpl in *; lia.
Qed.

Lemma no_winner_before_enough_moves_witness :
  0 < 3 /\ calls_in_range 3 crosses_row_game /\
  exists b player,
    play_all 3 crosses_row_game (empty_board 3) Crosses = Some (b, player) /\
    check_for_winner 3 b = Some (Some Crosses) /\
    (5 <= legal_moves 3 crosses_row_game (empty_board 3) Crosses)%nat.
Proof.
  assert (Hcalls : calls_in_range 3 crosses_row_game).
  { unfold crosses_row_game. repeat constructor; by intros index [= <-]. }
  split; [lia|]. split; [exact Hcalls|].
  destruct (no_winner_before_enough_moves 3 crosses_row_game Crosses)
    as (b & p & Hrun & Hmoves); [lia | exact Hcalls |].
  exists b, p. split; [exact Hrun|].
  assert (Hwin : check_for_winner 3 b = Some (Some Crosses)).
  { vm_compute in Hrun. injection Hrun as <- <-. reflexivity. }
  split; [exact Hwin | exact (Hmoves Crosses Hwin)].
Defined.

(** ** Frames *)

Section FrameFacts.

Variable p6_map : vec2 -> vec2 -> vec2 -> vec2 -> vec2 -> vec2.

Lemma try_draw_player_on_hovered_cell_shapes size player (b : Board) c :
  board_wf size b ->
  exists c',
    try_draw_player_on_hovered_cell p6_map size player b c = Some c' /\
    drawn c' = drawn c ++ preview_shapes p6_map size b player (mouse c) /\
    same_window c c'.
Proof.
  intros Hwf. unfold preview_shapes.
  destruct (try_draw_player_on_hovered_cell_cases p6_map size player b c Hwf)
    as [(index & -> & -> & ->) | [Hno ->]].
  - eexists. split; [done|]. split; [apply draw_player_shapes|].
    apply draw_player_same_window.
  - exists c. split; [done|]. split; [|done].
    destruct Hno as [-> | (index & occupant & -> & ->)];
      by rewrite app_nil_r.
Qed.

(** X14.  A frame returns without failing and draws in this order: the
    background, the [size * size] squares of the grid, the marks of the
    occupied cells, and last the preview of the current player on the cell
    under the pointer when that cell is empty.  It leaves the board and the
    current player as they were. *)
Theorem frame_draws_in_order (size : Z) (s : Session) :
  0 < size -> board_wf size (board s) ->
  exists s',
    update p6_map size s = Some s' /\
    drawn (ctx s')
    = drawn (ctx s) ++ [Background background_color]
      ++ board_squares p6_map size
      ++ (index ← board_indices size;
          cell_shapes p6_map size (board s) index)
      ++ preview_shapes p6_map size (board s) (current_player s)
                        (mouse (ctx s)) /\
    board s' = board s /\ current_player s' = current_player s.
Proof.
  intros Hsize Hwf. unfold update.
  set (c0 := set_fill _ _).
  destruct (draw_cells_fold p6_map size (board_indices size) c0)
    as (Hsquares & _ & _ & _ & Hmouse1 & _).
  rewrite <- (for_each_board_indices
                (fun index => draw_cell p6_map index size)) in Hsquares, Hmouse1.
  fold (draw_board p6_map size c0) in Hsquares, Hmouse1.
  set (c1 := draw_board p6_map size c0) in *.
  destruct (draw_marks_fold p6_map size (board s) (board_indices size) c1 Hwf
              (board_indices_in_range size)) as (c2 & Hrun2 & Hmarks & _).
  destruct (draw_noughts_and_crosses_total p6_map size (board s) c1 Hwf)
    as (c2' & Hrun2' & Hmouse2 & _).
  assert (c2' = c2) as ->.
  { unfold draw_noughts_and_crosses in Hrun2'.
    rewrite (for_each_board_indices
               (fun index o =>
                  ctx ← o;
                  cell ← BoardOps.at_ size (board s) index;
                  match cell with
                  | Some player =>
                      Some (draw_player p6_map player index size ctx)
                  | None => Some ctx
                  end)) in Hrun2'.
    congruence. }
  rewrite Hrun2'. simpl.
  destruct (try_draw_player_on_hovered_cell_shapes size (current_player s)
              (board s) c2 Hwf) as (c3 & -> & Hpreview & _).
  simpl.
  assert (exists finished text,
            game_is_finished size (board s) = Some (finished, text))
    as (finished & text & ->).
  { destruct (game_is_finished_cases size (board s) Hsize Hwf)
      as [(p & _ & ->) | [_ ->]]; [by eexists _, _|].
    destruct (board_is_full (board s)); by eexists _, _. }
  simpl. eexists. split; [done|]. simpl. split; [|done].
  assert (drawn (if finished then stop c3 else c3) = drawn c3) as ->
    by (by destruct finished).
  rewrite Hpreview, Hmarks, Hsquares, Hmouse2, Hmouse1.
  subst c0. simpl. unfold board_squares, background_color.
  by rewrite <- !app_assoc.
Qed.

(** X15.  On a board where some line is filled by one player or every
    cell is occupied, a frame prints one of the three outcome lines, the
    victory line of the winner when there is one, and stops the loop; no
    later event is handled. *)
Theorem frame_stops_a_finished_game (size : Z) (s : Session) :
  0 < size -> board_wf size (board s) -> game_over size (board s) ->
  exists s' text,
    update p6_map size s = Some s' /\
    cout s' = (cout s ++ text)%string /\
    (text = Noughts_have_won \/ text = Crosses_have_won \/
     text = This_is_a_draw) /\
    (forall winner, check_for_winner size (board s) = Some (Some winner) ->
       text = victory_line winner) /\
    running (ctx s') = false /\
    forall events, start p6_map size events s' = Some s'.
Proof.
  intros Hsize Hwf Hover.
  apply (game_is_finished_true size (board s) Hsize Hwf) in Hover
    as [text Hfin].
  destruct (update_total p6_map size s Hsize Hwf)
    as (s' & finished & text' & Hrun & Hgame & _ & _ & Hcout & Hstop).
  rewrite Hfin in Hgame. injection Hgame as <- <-.
  exists s', text. split; [done|]. split; [done|]. split.
  - by destruct (game_is_finished_text size (board s) true text Hsize Hwf Hfin)
      as [[? _] | [_ ?]].
  - split.
    + intros winner Hwin.
      destruct (game_is_finished_cases size (board s) Hsize Hwf)
        as [(p & Hp & Hp') | [Hnone _]]; congruence.
    + split; [done|]. intros [|e events]; simpl; [done | by rewrite Hstop].
Qed.

End FrameFacts.

Lemma frame_draws_in_order_witness :
  0 < 3 /\
  board_wf 3 cross_in_the_middle /\
  exists s',
    update P6Reference.map 3
           (mkSession cross_in_the_middle Noughts P6Reference.window
                      EmptyString) = Some s' /\
    length (drawn (ctx s')) = 12%nat.
Proof.
  split; [lia|]. split; [reflexivity|].
  destruct (frame_draws_in_order P6Reference.map 3
              (mkSession cross_in_the_middle Noughts P6Reference.window
                         EmptyString))
    as (s' & Hrun & Hdrawn & _); [lia | reflexivity |].
  exists s'. split; [exact Hrun|]. rewrite Hdrawn. reflexivity.
Defined.

Lemma frame_stops_a_finished_game_witness :
  0 < 3 /\ board_wf 3 two_columns /\ game_over 3 two_columns /\
  exists s',
    update P6Reference.map 3
           (mkSession two_columns Crosses P6Reference.window EmptyString)
    = Some s' /\
    cout s' = Noughts_have_won /\ running (ctx s') = false.
Proof.
  assert (Hover : game_over 3 two_columns).
  { left. exists (column 0), Noughts. split.
    - unfold lines. apply elem_of_app. left. apply list_elem_of_fmap.
      exists 0. split; [reflexivity|]. apply elem_of_seqZ. lia.
    - intros k Hk.
      assert (k = 0 \/ k = 1 \/ k = 2) as [-> | [-> | ->]] by lia;
        reflexivity. }
  split; [lia|]. split; [reflexivity|]. split; [exact Hover|].
  destruct (frame_stops_a_finished_game P6Reference.map 3
              (mkSession two_columns Crosses P6Reference.window EmptyString))
    as (s' & text & Hrun & Hcout & _ & Hwin & Hstop & _);
    [lia | reflexivity | exact Hover |].
  exists s'. split; [exact Hrun|]. split; [|exact Hstop].
  rewrite Hcout, (Hwin Noughts eq_refl). reflexivity.
Defined.

(** ** The coordinate mapping *)

Lemma cell_hovered_by_components (position : vec2) (N : Z) :
  cell_hovered_by P6Reference.map position N
  = let index := mkCellIndex (hovered_component N (vx position))
                             (hovered_component N (vy position)) in
    if BoardOps.in_range N index then Some index else None.
Proof. reflexivity. Qed.

Lemma cell_center_components (index : CellIndex) (N : Z) :
  cell_center P6Reference.map index N
  = Vec2 (center_component N (x index)) (center_component N (y index)).
Proof. reflexivity. Qed.

(** C2, as stated, fails whatever [p6::map] computes: on a board of size
    2^24 + 2 the cells 2^24 and 2^24 + 1 of the bottom row have the same
    centre, because [static_cast<float>] maps both indices to 2^24. *)
Lemma round_trip_fails_on_a_huge_board :
  ~ exists p6_map : vec2 -> vec2 -> vec2 -> vec2 -> vec2 -> vec2,
      forall N index, 0 <= x index < N -> 0 <= y index < N ->
        cell_hovered_by p6_map (cell_center p6_map index N) N = Some index.
Proof.
  intros [p6_map H].
  pose proof (H 16777218 (mkCellIndex 16777216 0) ltac:(simpl; lia)
                ltac:(simpl; lia)) as H1.
  pose proof (H 16777218 (mkCellIndex 16777217 0) ltac:(simpl; lia)
                ltac:(simpl; lia)) as H2.
  unfold cell_center, cell_bottom_left_corner in H1, H2.
  cbn [x y] in H1, H2.
  replace (Float32.of_int 16777217) with (Float32.of_int 16777216) in H2
    by (vm_compute; reflexivity).
  rewrite H1 in H2. discriminate.
Qed.

Lemma round_trips_up_to_spec K N i :
  round_trips_up_to K = true -> 1 <= N <= K -> 0 <= i < N ->
  hovered_component N (center_component N i) = i.
Proof.
  unfold round_trips_up_to. rewrite forallb_forall. intros Hall HN Hi.
  specialize (Hall N). rewrite <- list_elem_of_In, elem_of_seqZ in Hall.
  specialize (Hall ltac:(lia)). rewrite forallb_forall in Hall.
  specialize (Hall i). rewrite <- list_elem_of_In, elem_of_seqZ in Hall.
  apply Z.eqb_eq, Hall. lia.
Qed.

(** C2, amended.  With [p6::map] the affine map in binary32, on every
    board of size 1 to 128 the centre of every cell is mapped back to the
    cell. *)
Theorem cell_center_round_trip (N : Z) (index : CellIndex) :
  1 <= N <= 128 -> 0 <= x index < N -> 0 <= y index < N ->
  cell_hovered_by P6Reference.map (cell_center P6Reference.map index N) N
  = Some index.
Proof.
  intros HN Hx Hy.
  assert (Hall : round_trips_up_to 128 = true) by (vm_compute; reflexivity).
  rewrite cell_center_components, cell_hovered_by_components. cbn [vx vy].
  rewrite !(round_trips_up_to_spec 128 N) by done.
  destruct index as [i j]. cbn [x y] in *. cbv zeta.
  assert (Hin : BoardOps.in_range N (mkCellIndex i j) = true)
    by (apply in_range_spec; cbn [x y]; lia).
  rewrite Hin. reflexivity.
Qed.

Lemma cell_center_round_trip_witness :
  1 <= 3 <= 128 /\
  cell_hovered_by P6Reference.map
    (cell_center P6Reference.map (mkCellIndex 2 1) 3) 3
  = Some (mkCellIndex 2 1).
Proof.
  split; [lia|].
  apply (cell_center_round_trip 3 (mkCellIndex 2 1)); simpl; lia.
Defined.

(** C5, as stated, fails with [p6::map] the affine map in binary32: the
    largest binary32 number below 1 lies in [[-1, +1)], and a pointer there
    hovers no cell of the 3 by 3 board, because it is mapped to 3. *)
Lemma hover_misses_the_last_float_below_one :
  in_unit_interval P6Reference.below_one = true /\
  in_unit_interval (Float32.of_int 0) = true /\
  cell_hovered_by P6Reference.map
    (Vec2 P6Reference.below_one (Float32.of_int 0)) 3 = None.
Proof. repeat split; vm_compute; reflexivity. Qed.

Lemma cell_hovered_by_guard
    (p6_map : vec2 -> vec2 -> vec2 -> vec2 -> vec2 -> vec2)
    (position : vec2) (N : Z) :
  let pos := p6_map position
                    (vec2_splat (Float32.of_int (-1)))
                    (vec2_splat (Float32.of_int 1))
                    (vec2_splat (Float32.of_int 0))
                    (vec2_splat (Float32.of_int N)) in
  let index := mkCellIndex (Float32.floor_to_int (vx pos))
                           (Float32.floor_to_int (vy pos)) in
  (cell_hovered_by p6_map position N = Some index <->
   0 <= x index < N /\ 0 <= y index < N) /\
  (cell_hovered_by p6_map position N = None <->
   ~ (0 <= x index < N /\ 0 <= y index < N)).
Proof.
  intros pos index. unfold cell_hovered_by. fold pos. fold index.
  destruct ((0 <=? x index) && (x index <? N) &&
            (0 <=? y index) && (y index <? N)) eqn:Hguard.
  - rewrite !andb_true_iff in Hguard. split; split; try done; lia.
  - assert (~ (0 <= x index < N /\ 0 <= y index < N)).
    { intros H. rewrite !andb_false_iff in Hguard. lia. }
    split; split; done.
Qed.
